(** * Atak Door: a model of the App component's state handling

    The application is a React component tree whose root, [App], owns all
    state.  This development embeds the handlers of [App] as functions on a
    record of the component's state, the helper [dataURLtoFile] as a
    function on strings, and the object-URL effects as functions on a log of
    the calls made to the browser. *)

From Stdlib Require Import ZArith List String Ascii Bool Lia.
From Stdlib Require Import Floats.
From stdpp Require Import base list pretty.
Import ListNotations.

Local Open Scope string_scope.
Local Open Scope Z_scope.

(** ** Numbers

    A JS [number] is an IEEE 754 binary64 value; Rocq's primitive floats are
    the same format with the same rounding, so arithmetic and comparisons are
    taken from [PrimFloat] as they are. *)

Module Num.

Definition number := float.

(** The number that a DOM [unsigned long] attribute reads as. *)
Definition of_unsigned_long (n : N) : number :=
  PrimFloat.of_uint63 (Uint63.of_Z (Z.of_N n)).

(** JS [a < b] and [a > b]: both are false as soon as one side is NaN. *)
Definition lt (a b : number) : bool := PrimFloat.ltb a b.
Definition gt (a b : number) : bool := PrimFloat.ltb b a.

Definition isNaN (a : number) : bool := negb (PrimFloat.eqb a a).

(** [0 <= a <= 100], false for NaN. *)
Definition isPercentage (a : number) : bool :=
  PrimFloat.leb 0%float a && PrimFloat.leb a 100%float.

End Num.

(** ** Strings

    JS strings are modelled by [string]; the characters are the code units
    below 256, which is all a data URL, an asset path or the result of
    [atob] contains. *)

Module Str.

Definition truthy (s : string) : bool :=
  match s with EmptyString => false | String _ _ => true end.

(** [a || b] on strings. *)
Definition or_else (a b : string) : string := if truthy a then a else b.

(** [s.split(sep)] for a one-character separator: never empty. *)
Fixpoint split (sep : ascii) (s : string) : list string :=
  match s with
  | EmptyString => [EmptyString]
  | String c r =>
      if Ascii.eqb c sep then EmptyString :: split sep r
      else match split sep r with
           | h :: t => String c h :: t
           | [] => [String c EmptyString]
           end
  end.

(** [arr.pop()]: the last element, [undefined] on an empty array. *)
Definition pop (arr : list string) : option string := last arr.

(** [s.startsWith(p)]. *)
Definition startsWith (s p : string) : bool := String.prefix p s.

(** [s.charCodeAt(i)]; out of range it is NaN, which a [Uint8Array]
    stores as 0. *)
Definition charCodeAt (s : string) (i : nat) : Z :=
  match String.get i s with
  | Some c => Z.of_N (N_of_ascii c)
  | None => 0
  end.

(** The characters the regular expression dot does not match. *)
Definition isLineTerminator (c : ascii) : bool :=
  Ascii.eqb c "010" || Ascii.eqb c "013".

(** [(.*?);] from the head of [s]: the shortest run of non-terminators
    followed by a semicolon; the result is the run. *)
Fixpoint lazyUntilSemicolon (s : string) : option string :=
  match s with
  | EmptyString => None
  | String c r =>
      if Ascii.eqb c ";" then Some EmptyString
      else if isLineTerminator c then None
      else String c <$> lazyUntilSemicolon r
  end.

(** [s.match(/:(.*?);/)]: the capture group of the leftmost match. *)
Fixpoint matchMime (s : string) : option string :=
  match s with
  | EmptyString => None
  | String c r =>
      if Ascii.eqb c ":" then
        match lazyUntilSemicolon r with
        | Some g => Some g
        | None => matchMime r
        end
      else matchMime r
  end.

End Str.

(** ** Platform objects and functions *)

Module Web.

(** A value caught by [catch (err)]: an [Error] with its message, or
    anything else. *)
Inductive Thrown :=
| ErrorObject (message : string)
| NotAnError.

Inductive Completion (A : Type) :=
| Normal (a : A)
| Throw (e : Thrown).
Arguments Normal {A} a.
Arguments Throw {A} e.

Record Blob := { blobBytes : list Z; blobType : string }.

(** A File: its bytes, its name and its type. *)
Record File := { bytes : list Z; name : string; type : string }.

(** *** The File constructor

    [new File(parts, name, {type})] does not keep the type as given: if it
    has a character outside U+0020..U+007E the File's type is the empty
    string, otherwise it is the argument in ASCII lower case.  (The type of
    a Blob is already kept in that form by the platform.) *)

Definition isPrintable (c : ascii) : bool :=
  let n := N_of_ascii c in (32 <=? n)%N && (n <=? 126)%N.

Definition toAsciiLower (c : ascii) : ascii :=
  let n := N_of_ascii c in
  if (65 <=? n)%N && (n <=? 90)%N then ascii_of_N (n + 32) else c.

Definition normalizeType (t : string) : string :=
  let l := list_ascii_of_string t in
  if forallb isPrintable l then string_of_list_ascii (toAsciiLower <$> l)
  else EmptyString.

Definition newFile (parts : list Z) (fileName type : string) : File :=
  {| bytes := parts; name := fileName; type := normalizeType type |}.

(** *** [atob]: the forgiving base64 decoding of the platform *)

Definition isAsciiWhitespace (c : ascii) : bool :=
  let n := N_of_ascii c in
  (n =? 9)%N || (n =? 10)%N || (n =? 12)%N || (n =? 13)%N || (n =? 32)%N.

Definition sextet (c : ascii) : option Z :=
  let n := Z.of_N (N_of_ascii c) in
  if (65 <=? n) && (n <=? 90) then Some (n - 65)
  else if (97 <=? n) && (n <=? 122) then Some (n - 71)
  else if (48 <=? n) && (n <=? 57) then Some (n + 4)
  else if n =? 43 then Some 62
  else if n =? 47 then Some 63
  else None.

Fixpoint sextets (l : list ascii) : option (list Z) :=
  match l with
  | [] => Some []
  | c :: r =>
      match sextet c, sextets r with
      | Some v, Some vs => Some (v :: vs)
      | _, _ => None
      end
  end.

(** Remove one or two trailing [=] from a reversed list of characters. *)
Definition stripPadding (rev : list ascii) : list ascii :=
  match rev with
  | "="%char :: "="%char :: r => r
  | "="%char :: r => r
  | _ => rev
  end.

Fixpoint decodeSextets (l : list Z) : list Z :=
  match l with
  | a :: b :: c :: d :: r =>
      let n := a * 262144 + b * 4096 + c * 64 + d in
      n / 65536 :: (n / 256) mod 256 :: n mod 256 :: decodeSextets r
  | [a; b; c] =>
      let n := (a * 4096 + b * 64 + c) / 4 in
      [n / 256; n mod 256]
  | [a; b] => [(a * 64 + b) / 16]
  | _ => []
  end.

Definition stringOfBytes (l : list Z) : string :=
  string_of_list_ascii ((fun b => ascii_of_N (Z.to_N b)) <$> l).

(** Forgiving base64 decoding: drop ASCII whitespace, drop one or two
trailing [=] if the length is a multiple of 4, refuse a length that is 1
modulo 4 and any character outside the alphabet, then decode. *)
Definition forgivingBase64Decode (data : string) : option (list Z) :=
  let data := filter (fun c => isAsciiWhitespace c = false) (list_ascii_of_string data) in
  let data :=
    if (length data mod 4 =? 0)%nat then rev (stripPadding (rev data)) else data in
  if (length data mod 4 =? 1)%nat then None
  else decodeSextets <$> sextets data.

(** [atob(data)]: the decoded bytes as a string; [None] stands for the
InvalidCharacterError. *)
Definition atob (data : string) : option string :=
  stringOfBytes <$> forgivingBase64Decode data.

(** The text of that exception is the browser's own. *)
Definition invalidCharacterError : Thrown :=
  ErrorObject "The string to be decoded is not correctly encoded.".

End Web.

(** ** types.ts and data/doors.ts *)

Module Types.

Record Door := { id : Z; name : string; imageUrl : string }.

End Types.

Definition predefinedDoors : list Types.Door :=
  [ {| Types.id := 1; Types.name := "Classic Oak Panel"; Types.imageUrl := "/assets/door-1.jpg" |};
    {| Types.id := 2; Types.name := "Modern Steel Gray"; Types.imageUrl := "/assets/door-2.jpg" |};
    {| Types.id := 3; Types.name := "Rustic Barn Door"; Types.imageUrl := "/assets/door-3.png" |};
    {| Types.id := 4; Types.name := "Elegant Glass Insert"; Types.imageUrl := "/assets/door-4.jpg" |};
    {| Types.id := 5; Types.name := "Minimalist White"; Types.imageUrl := "/assets/door-5.jpg" |} ].

(** ** [dataURLtoFile] *)

(** The loop [while (n--) u8arr[n] = bstr.charCodeAt(n)]; a [Uint8Array]
    keeps the value modulo 256. *)
Fixpoint fillFromEnd (bstr : string) (n : nat) (u8arr : list Z) : list Z :=
  match n with
  | O => u8arr
  | S m => fillFromEnd bstr m (<[m := Str.charCodeAt bstr m mod 256]> u8arr)
  end.

Definition dataURLtoFile (dataurl filename : string) : Web.Completion Web.File :=
  let arr := Str.split "," dataurl in
  match arr with
  | arr0 :: arr1 :: _ =>
      match Str.matchMime arr0 with
      | Some mime =>
          if Str.truthy mime then
            match Web.atob arr1 with
            | Some bstr =>
                let n := String.length bstr in
                let u8arr := fillFromEnd bstr n (replicate n 0) in
                Web.Normal (Web.newFile u8arr filename mime)
            | None => Web.Throw Web.invalidCharacterError
            end
          else Web.Throw (Web.ErrorObject "Could not parse MIME type from data URL")
      | None => Web.Throw (Web.ErrorObject "Could not parse MIME type from data URL")
      end
  | _ => Web.Throw (Web.ErrorObject "Invalid data URL")
  end.

(** ** The touch drop of [handleTouchEnd] *)

Module Touch.

Import Num.

Record Point := { x : number; y : number }.
Record RelativePosition := { xPercent : number; yPercent : number }.

(** [dropZone.getBoundingClientRect()]. *)
Record DOMRect := { left : number; top : number; width : number; height : number }.

(** The fields of the scene [<img>] the handler reads. *)
Record HTMLImageElement := { naturalWidth : N; naturalHeight : N }.

(** [touch = e.changedTouches[0]]. *)
Record TouchPoint := { clientX : number; clientY : number }.

(** Lines 250-260: the rendered size of the image inside the container. *)
Definition renderedSize (img : HTMLImageElement) (containerRect : DOMRect)
  : number * number :=
  let containerWidth := width containerRect in
  let containerHeight := height containerRect in
  let imageAspectRatio :=
    (of_unsigned_long (naturalWidth img) / of_unsigned_long (naturalHeight img))%float in
  let containerAspectRatio := (containerWidth / containerHeight)%float in
  if gt imageAspectRatio containerAspectRatio
  then (containerWidth, (containerWidth / imageAspectRatio)%float)
  else ((containerHeight * imageAspectRatio)%float, containerHeight).

(** Lines 245-276: what the handler forwards to [handleDoorDrop], if
    anything, once a drop zone and the scene image are found. *)
Definition dropOnImage (touch : TouchPoint) (containerRect : DOMRect)
    (img : HTMLImageElement) : option (Point * RelativePosition) :=
  let containerWidth := width containerRect in
  let containerHeight := height containerRect in
  let '(renderedWidth, renderedHeight) := renderedSize img containerRect in
  let offsetX := ((containerWidth - renderedWidth) / 2)%float in
  let offsetY := ((containerHeight - renderedHeight) / 2)%float in
  let dropX := (clientX touch - left containerRect)%float in
  let dropY := (clientY touch - top containerRect)%float in
  let imageX := (dropX - offsetX)%float in
  let imageY := (dropY - offsetY)%float in
  if negb (lt imageX 0%float || gt imageX renderedWidth
           || lt imageY 0%float || gt imageY renderedHeight)
  then
    let xPercent := (imageX / renderedWidth * 100)%float in
    let yPercent := (imageY / renderedHeight * 100)%float in
    Some ({| x := dropX; y := dropY |},
          {| xPercent := xPercent; yPercent := yPercent |})
  else None.

End Touch.

(** The character codes of a string, and what a byte is. *)
Definition codes (l : list ascii) : list Z := (fun c => Z.of_N (N_of_ascii c)) <$> l.

Definition isByte (b : Z) : Prop := 0 <= b < 256.

(** A type that the File constructor keeps as it is: printable ASCII with
    no upper-case letter. *)
Definition lowerPrintable (t : string) : Prop :=
  Forall (fun c => Web.isPrintable c = true /\ Web.toAsciiLower c = c)
         (list_ascii_of_string t).

(** The three ways [dataURLtoFile] can fail, on the pieces of
[dataurl.split(',')]. *)
Definition noPayload (dataurl : string) : Prop :=
  (length (Str.split "," dataurl) < 2)%nat.

Definition noMime (dataurl : string) : Prop :=
  forall arr0 mime,
    Str.split "," dataurl !! 0%nat = Some arr0 ->
    Str.matchMime arr0 = Some mime -> mime = EmptyString.

Definition undecodable (dataurl : string) : Prop :=
  exists arr1, Str.split "," dataurl !! 1%nat = Some arr1 /\ Web.atob arr1 = None.

(** ** services/geminiService: the signature of [generateCompositeImage]

    The service is outside this file; a call is the record of its arguments
    and its result is whatever the promise settles with. *)

Record CompositeRequest := {
  objectImage : Web.File;
  objectDescription : string;
  environmentImage : Web.File;
  environmentDescription : string;
  dropPosition : Touch.RelativePosition
}.

Record CompositeResult := {
  finalImageUrl : string;
  resultDebugImageUrl : option string;
  finalPrompt : option string
}.

(** ** The state of [App] *)

Record AppState := {
  selectedDoor : option Types.Door;
  doorImageFile : option Web.File;
  sceneImage : option Web.File;
  isLoading : bool;
  error : option string;
  loadingMessageIndex : Z;
  persistedOrbPosition : option Touch.Point;
  debugImageUrl : option string;
  debugPrompt : option string;
  isDebugModalOpen : bool;
  isAddModalOpen : bool;
  isTouchDragging : bool;
  touchGhostPosition : option Touch.Point;
  isHoveringDropZone : bool;
  touchOrbPosition : option Touch.Point
}.

(** The arguments of the [useState] calls. *)
Definition initialState : AppState := {|
  selectedDoor := None; doorImageFile := None; sceneImage := None;
  isLoading := false; error := None; loadingMessageIndex := 0;
  persistedOrbPosition := None; debugImageUrl := None; debugPrompt := None;
  isDebugModalOpen := false; isAddModalOpen := false;
  isTouchDragging := false; touchGhostPosition := None;
  isHoveringDropZone := false; touchOrbPosition := None
|}.

Definition setSelectedDoor (v : option Types.Door) (s : AppState) : AppState :=
  {| selectedDoor := v; doorImageFile := doorImageFile s; sceneImage := sceneImage s;
     isLoading := isLoading s; error := error s;
     loadingMessageIndex := loadingMessageIndex s;
     persistedOrbPosition := persistedOrbPosition s;
     debugImageUrl := debugImageUrl s; debugPrompt := debugPrompt s;
     isDebugModalOpen := isDebugModalOpen s; isAddModalOpen := isAddModalOpen s;
     isTouchDragging := isTouchDragging s; touchGhostPosition := touchGhostPosition s;
     isHoveringDropZone := isHoveringDropZone s; touchOrbPosition := touchOrbPosition s |}.

Definition setDoorImageFile (v : option Web.File) (s : AppState) : AppState :=
  {| selectedDoor := selectedDoor s; doorImageFile := v; sceneImage := sceneImage s;
     isLoading := isLoading s; error := error s;
     loadingMessageIndex := loadingMessageIndex s;
     persistedOrbPosition := persistedOrbPosition s;
     debugImageUrl := debugImageUrl s; debugPrompt := debugPrompt s;
     isDebugModalOpen := isDebugModalOpen s; isAddModalOpen := isAddModalOpen s;
     isTouchDragging := isTouchDragging s; touchGhostPosition := touchGhostPosition s;
     isHoveringDropZone := isHoveringDropZone s; touchOrbPosition := touchOrbPosition s |}.

Definition setSceneImage (v : option Web.File) (s : AppState) : AppState :=
  {| selectedDoor := selectedDoor s; doorImageFile := doorImageFile s; sceneImage := v;
     isLoading := isLoading s; error := error s;
     loadingMessageIndex := loadingMessageIndex s;
     persistedOrbPosition := persistedOrbPosition s;
     debugImageUrl := debugImageUrl s; debugPrompt := debugPrompt s;
     isDebugModalOpen := isDebugModalOpen s; isAddModalOpen := isAddModalOpen s;
     isTouchDragging := isTouchDragging s; touchGhostPosition := touchGhostPosition s;
     isHoveringDropZone := isHoveringDropZone s; touchOrbPosition := touchOrbPosition s |}.

Definition setIsLoading (v : bool) (s : AppState) : AppState :=
  {| selectedDoor := selectedDoor s; doorImageFile := doorImageFile s;
     sceneImage := sceneImage s; isLoading := v; error := error s;
     loadingMessageIndex := loadingMessageIndex s;
     persistedOrbPosition := persistedOrbPosition s;
     debugImageUrl := debugImageUrl s; debugPrompt := debugPrompt s;
     isDebugModalOpen := isDebugModalOpen s; isAddModalOpen := isAddModalOpen s;
     isTouchDragging := isTouchDragging s; touchGhostPosition := touchGhostPosition s;
     isHoveringDropZone := isHoveringDropZone s; touchOrbPosition := touchOrbPosition s |}.

Definition setError (v : option string) (s : AppState) : AppState :=
  {| selectedDoor := selectedDoor s; doorImageFile := doorImageFile s;
     sceneImage := sceneImage s; isLoading := isLoading s; error := v;
     loadingMessageIndex := loadingMessageIndex s;
     persistedOrbPosition := persistedOrbPosition s;
     debugImageUrl := debugImageUrl s; debugPrompt := debugPrompt s;
     isDebugModalOpen := isDebugModalOpen s; isAddModalOpen := isAddModalOpen s;
     isTouchDragging := isTouchDragging s; touchGhostPosition := touchGhostPosition s;
     isHoveringDropZone := isHoveringDropZone s; touchOrbPosition := touchOrbPosition s |}.

Definition setLoadingMessageIndex (v : Z) (s : AppState) : AppState :=
  {| selectedDoor := selectedDoor s; doorImageFile := doorImageFile s;
     sceneImage := sceneImage s; isLoading := isLoading s; error := error s;
     loadingMessageIndex := v;
     persistedOrbPosition := persistedOrbPosition s;
     debugImageUrl := debugImageUrl s; debugPrompt := debugPrompt s;
     isDebugModalOpen := isDebugModalOpen s; isAddModalOpen := isAddModalOpen s;
     isTouchDragging := isTouchDragging s; touchGhostPosition := touchGhostPosition s;
     isHoveringDropZone := isHoveringDropZone s; touchOrbPosition := touchOrbPosition s |}.

Definition setPersistedOrbPosition (v : option Touch.Point) (s : AppState) : AppState :=
  {| selectedDoor := selectedDoor s; doorImageFile := doorImageFile s;
     sceneImage := sceneImage s; isLoading := isLoading s; error := error s;
     loadingMessageIndex := loadingMessageIndex s;
     persistedOrbPosition := v;
     debugImageUrl := debugImageUrl s; debugPrompt := debugPrompt s;
     isDebugModalOpen := isDebugModalOpen s; isAddModalOpen := isAddModalOpen s;
     isTouchDragging := isTouchDragging s; touchGhostPosition := touchGhostPosition s;
     isHoveringDropZone := isHoveringDropZone s; touchOrbPosition := touchOrbPosition s |}.

Definition setDebugImageUrl (v : option string) (s : AppState) : AppState :=
  {| selectedDoor := selectedDoor s; doorImageFile := doorImageFile s;
     sceneImage := sceneImage s; isLoading := isLoading s; error := error s;
     loadingMessageIndex := loadingMessageIndex s;
     persistedOrbPosition := persistedOrbPosition s;
     debugImageUrl := v; debugPrompt := debugPrompt s;
     isDebugModalOpen := isDebugModalOpen s; isAddModalOpen := isAddModalOpen s;
     isTouchDragging := isTouchDragging s; touchGhostPosition := touchGhostPosition s;
     isHoveringDropZone := isHoveringDropZone s; touchOrbPosition := touchOrbPosition s |}.

Definition setDebugPrompt (v : option string) (s : AppState) : AppState :=
  {| selectedDoor := selectedDoor s; doorImageFile := doorImageFile s;
     sceneImage := sceneImage s; isLoading := isLoading s; error := error s;
     loadingMessageIndex := loadingMessageIndex s;
     persistedOrbPosition := persistedOrbPosition s;
     debugImageUrl := debugImageUrl s; debugPrompt := v;
     isDebugModalOpen := isDebugModalOpen s; isAddModalOpen := isAddModalOpen s;
     isTouchDragging := isTouchDragging s; touchGhostPosition := touchGhostPosition s;
     isHoveringDropZone := isHoveringDropZone s; touchOrbPosition := touchOrbPosition s |}.

Definition setIsDebugModalOpen (v : bool) (s : AppState) : AppState :=
  {| selectedDoor := selectedDoor s; doorImageFile := doorImageFile s;
     sceneImage := sceneImage s; isLoading := isLoading s; error := error s;
     loadingMessageIndex := loadingMessageIndex s;
     persistedOrbPosition := persistedOrbPosition s;
     debugImageUrl := debugImageUrl s; debugPrompt := debugPrompt s;
     isDebugModalOpen := v; isAddModalOpen := isAddModalOpen s;
     isTouchDragging := isTouchDragging s; touchGhostPosition := touchGhostPosition s;
     isHoveringDropZone := isHoveringDropZone s; touchOrbPosition := touchOrbPosition s |}.

Definition setIsAddModalOpen (v : bool) (s : AppState) : AppState :=
  {| selectedDoor := selectedDoor s; doorImageFile := doorImageFile s;
     sceneImage := sceneImage s; isLoading := isLoading s; error := error s;
     loadingMessageIndex := loadingMessageIndex s;
     persistedOrbPosition := persistedOrbPosition s;
     debugImageUrl := debugImageUrl s; debugPrompt := debugPrompt s;
     isDebugModalOpen := isDebugModalOpen s; isAddModalOpen := v;
     isTouchDragging := isTouchDragging s; touchGhostPosition := touchGhostPosition s;
     isHoveringDropZone := isHoveringDropZone s; touchOrbPosition := touchOrbPosition s |}.

Definition setIsTouchDragging (v : bool) (s : AppState) : AppState :=
  {| selectedDoor := selectedDoor s; doorImageFile := doorImageFile s;
     sceneImage := sceneImage s; isLoading := isLoading s; error := error s;
     loadingMessageIndex := loadingMessageIndex s;
     persistedOrbPosition := persistedOrbPosition s;
     debugImageUrl := debugImageUrl s; debugPrompt := debugPrompt s;
     isDebugModalOpen := isDebugModalOpen s; isAddModalOpen := isAddModalOpen s;
     isTouchDragging := v; touchGhostPosition := touchGhostPosition s;
     isHoveringDropZone := isHoveringDropZone s; touchOrbPosition := touchOrbPosition s |}.

Definition setTouchGhostPosition (v : option Touch.Point) (s : AppState) : AppState :=
  {| selectedDoor := selectedDoor s; doorImageFile := doorImageFile s;
     sceneImage := sceneImage s; isLoading := isLoading s; error := error s;
     loadingMessageIndex := loadingMessageIndex s;
     persistedOrbPosition := persistedOrbPosition s;
     debugImageUrl := debugImageUrl s; debugPrompt := debugPrompt s;
     isDebugModalOpen := isDebugModalOpen s; isAddModalOpen := isAddModalOpen s;
     isTouchDragging := isTouchDragging s; touchGhostPosition := v;
     isHoveringDropZone := isHoveringDropZone s; touchOrbPosition := touchOrbPosition s |}.

Definition setIsHoveringDropZone (v : bool) (s : AppState) : AppState :=
  {| selectedDoor := selectedDoor s; doorImageFile := doorImageFile s;
     sceneImage := sceneImage s; isLoading := isLoading s; error := error s;
     loadingMessageIndex := loadingMessageIndex s;
     persistedOrbPosition := persistedOrbPosition s;
     debugImageUrl := debugImageUrl s; debugPrompt := debugPrompt s;
     isDebugModalOpen := isDebugModalOpen s; isAddModalOpen := isAddModalOpen s;
     isTouchDragging := isTouchDragging s; touchGhostPosition := touchGhostPosition s;
     isHoveringDropZone := v; touchOrbPosition := touchOrbPosition s |}.

Definition setTouchOrbPosition (v : option Touch.Point) (s : AppState) : AppState :=
  {| selectedDoor := selectedDoor s; doorImageFile := doorImageFile s;
     sceneImage := sceneImage s; isLoading := isLoading s; error := error s;
     loadingMessageIndex := loadingMessageIndex s;
     persistedOrbPosition := persistedOrbPosition s;
     debugImageUrl := debugImageUrl s; debugPrompt := debugPrompt s;
     isDebugModalOpen := isDebugModalOpen s; isAddModalOpen := isAddModalOpen s;
     isTouchDragging := isTouchDragging s; touchGhostPosition := touchGhostPosition s;
     isHoveringDropZone := isHoveringDropZone s; touchOrbPosition := v |}.

(** ** Handlers as state-and-exception computations

    Besides the state of [App], a handler can reach two things outside it:
    the compositing service and the browser's object URLs.  The calls made
    are logged next to the state. *)

Record World := {
  app : AppState;
  requests : list CompositeRequest;
  objectURLs : list (Web.File * string)
}.

Definition initialWorld : World :=
  {| app := initialState; requests := []; objectURLs := [] |}.

Definition Handler (A : Type) : Type := World -> World * Web.Completion A.

#[global] Instance Handler_ret : MRet Handler :=
  fun A a w => (w, Web.Normal a).

#[global] Instance Handler_bind : MBind Handler :=
  fun A B k m w =>
    match m w with
    | (w', Web.Normal a) => k a w'
    | (w', Web.Throw e) => (w', Web.Throw e)
    end.

#[global] Instance Handler_throw : MThrow Web.Thrown Handler :=
  fun A e w => (w, Web.Throw e).

(** A state setter of [useState]. *)
Definition call (f : AppState -> AppState) : Handler unit :=
  fun w => ({| app := f (app w); requests := requests w; objectURLs := objectURLs w |},
            Web.Normal tt).

(** The state as the handler's closure sees it. *)
Definition getState : Handler AppState := fun w => (w, Web.Normal (app w)).

(** A completed platform call or a settled promise under [await]. *)
Definition settle {A} (c : Web.Completion A) : Handler A := fun w => (w, c).

Definition tryCatch {A} (body : Handler A) (handler : Web.Thrown -> Handler A) : Handler A :=
  fun w =>
    match body w with
    | (w', Web.Throw e) => handler e w'
    | r => r
    end.

Definition tryFinally {A} (body : Handler A) (finalizer : Handler unit) : Handler A :=
  fun w =>
    match body w with
    | (w', c) =>
        match finalizer w' with
        | (w'', Web.Normal _) => (w'', c)
        | (w'', Web.Throw e) => (w'', Web.Throw e)
        end
    end.

(** The call [generateCompositeImage(...)] going out. *)
Definition sendRequest (req : CompositeRequest) : Handler unit :=
  fun w => ({| app := app w; requests := requests w ++ [req]; objectURLs := objectURLs w |},
            Web.Normal tt).

(** [await generateCompositeImage(...)]: the call goes out, then its promise
    settles with [outcome]. *)
Definition generateCompositeImage (outcome : Web.Completion CompositeResult)
    (req : CompositeRequest) : Handler CompositeResult :=
  sendRequest req;;
  settle outcome.

(** [URL.createObjectURL(file)], returning [result]. *)
Definition createObjectURL (result : Web.Completion string) (file : Web.File)
    : Handler string :=
  fun w =>
    match result with
    | Web.Normal url =>
        ({| app := app w; requests := requests w;
            objectURLs := objectURLs w ++ [(file, url)] |}, Web.Normal url)
    | Web.Throw e => (w, Web.Throw e)
    end.

(** [err instanceof Error ? err.message : 'An unknown error occurred.'] *)
Definition errorMessage (err : Web.Thrown) : string :=
  match err with
  | Web.ErrorObject message => message
  | Web.NotAnError => "An unknown error occurred."
  end.

(** *** [handleDoorImageUpload] *)

Definition handleDoorImageUpload (url : Web.Completion string) (now : Z)
    (file : Web.File) : Handler unit :=
  call (setError None);;
  tryCatch
    (imageUrl ← createObjectURL url file;
     let door := {| Types.id := now; Types.name := Web.name file;
                    Types.imageUrl := imageUrl |} in
     call (setDoorImageFile (Some file));;
     call (setSelectedDoor (Some door));;
     call (setIsAddModalOpen false))
    (fun err =>
       call (setError (Some ("Could not load the door image. Details: "
                             ++ errorMessage err)))).

(** *** [handleSelectPredefinedDoor] *)

(** What [fetch(door.imageUrl)] and then [response.blob()] come to. *)
Inductive FetchOutcome :=
| FetchRejected (err : Web.Thrown)
| Responded (ok : bool) (blob : Web.Completion Web.Blob).

Definition doorFile (door : Types.Door) (blob : Web.Blob) : Web.File :=
  let fileName :=
    Str.or_else (default EmptyString (Str.pop (Str.split "/" (Types.imageUrl door))))
                "door.jpg" in
  let fileType := Str.or_else (Web.blobType blob) "image/jpeg" in
  {| Web.bytes := Web.blobBytes blob; Web.name := fileName; Web.type := fileType |}.

(** The body of the [try] block. *)
Definition fetchDoor (outcome : FetchOutcome) (door : Types.Door) : Handler unit :=
  match outcome with
  | FetchRejected err => mthrow err
  | Responded ok blobOutcome =>
      if negb ok
      then mthrow (Web.ErrorObject ("Failed to load door image: " ++ Types.name door))
      else
        blob ← settle blobOutcome;
        call (setDoorImageFile (Some (doorFile door blob)));;
        call (setSelectedDoor (Some door))
  end.

Definition handleSelectPredefinedDoor (outcome : FetchOutcome) (door : Types.Door)
    : Handler unit :=
  call (setIsLoading true);;
  call (setError None);;
  tryFinally
    (tryCatch (fetchDoor outcome door)
       (fun err =>
          call (setError (Some ("Could not load the selected door. Details: "
                                ++ errorMessage err)))))
    (call (setIsLoading false)).

(** *** [handleDoorDrop] *)

Definition handleDoorDrop (outcome : Web.Completion CompositeResult) (now : Z)
    (position : Touch.Point) (relativePosition : Touch.RelativePosition)
    : Handler unit :=
  s ← getState;
  match doorImageFile s, sceneImage s, selectedDoor s with
  | Some doorImageFile, Some sceneImage, Some selectedDoor =>
      call (setPersistedOrbPosition (Some position));;
      call (setIsLoading true);;
      call (setError None);;
      tryFinally
        (tryCatch
           (r ← generateCompositeImage outcome
                  {| objectImage := doorImageFile;
                     objectDescription := Types.name selectedDoor;
                     environmentImage := sceneImage;
                     environmentDescription := Web.name sceneImage;
                     dropPosition := relativePosition |};
            call (setDebugImageUrl (resultDebugImageUrl r));;
            call (setDebugPrompt (finalPrompt r));;
            newSceneFile ← settle (dataURLtoFile (finalImageUrl r)
                                     ("generated-scene-" ++ pretty now ++ ".jpeg"));
            call (setSceneImage (Some newSceneFile)))
           (fun err =>
              call (setError (Some ("Failed to generate the image. "
                                    ++ errorMessage err)))))
        (call (setIsLoading false);;
         call (setPersistedOrbPosition None))
  | _, _, _ =>
      call (setError (Some "An unexpected error occurred. Please try again."))
  end.

(** *** [handleReset], [handleChangeDoor], [handleChangeScene] *)

Definition handleReset : Handler unit :=
  call (setSelectedDoor None);;
  call (setDoorImageFile None);;
  call (setSceneImage None);;
  call (setError None);;
  call (setIsLoading false);;
  call (setPersistedOrbPosition None);;
  call (setDebugImageUrl None);;
  call (setDebugPrompt None).

Definition handleChangeDoor : Handler unit :=
  call (setSelectedDoor None);;
  call (setDoorImageFile None);;
  call (setPersistedOrbPosition None);;
  call (setDebugImageUrl None);;
  call (setDebugPrompt None).

Definition handleChangeScene : Handler unit :=
  call (setSceneImage None);;
  call (setPersistedOrbPosition None);;
  call (setDebugImageUrl None);;
  call (setDebugPrompt None).

(** *** The two halves of the asynchronous handlers

    An [async] handler runs up to its first [await] inside the event that
    invoked it and resumes when the promise settles; other events can be
    handled in between.  [handleTouchEnd] does not await [handleDoorDrop],
    so only the first half runs inside it. *)

Definition handleSelectPredefinedDoorStart : Handler unit :=
  call (setIsLoading true);;
  call (setError None).

Definition handleSelectPredefinedDoorResume (outcome : FetchOutcome)
    (door : Types.Door) : Handler unit :=
  tryFinally
    (tryCatch (fetchDoor outcome door)
       (fun err =>
          call (setError (Some ("Could not load the selected door. Details: "
                                ++ errorMessage err)))))
    (call (setIsLoading false)).

(** Up to the [await]: the guard, the three setters and the call going out.
    The result tells whether a call is now pending. *)
Definition handleDoorDropStart (position : Touch.Point)
    (relativePosition : Touch.RelativePosition) : Handler bool :=
  s ← getState;
  match doorImageFile s, sceneImage s, selectedDoor s with
  | Some doorImageFile, Some sceneImage, Some selectedDoor =>
      call (setPersistedOrbPosition (Some position));;
      call (setIsLoading true);;
      call (setError None);;
      sendRequest {| objectImage := doorImageFile;
                     objectDescription := Types.name selectedDoor;
                     environmentImage := sceneImage;
                     environmentDescription := Web.name sceneImage;
                     dropPosition := relativePosition |};;
      mret true
  | _, _, _ =>
      call (setError (Some "An unexpected error occurred. Please try again."));;
      mret false
  end.

(** From the [await] on, once the promise has settled with [outcome]. *)
Definition handleDoorDropResume (outcome : Web.Completion CompositeResult) (now : Z)
    : Handler unit :=
  tryFinally
    (tryCatch
       (r ← settle outcome;
        call (setDebugImageUrl (resultDebugImageUrl r));;
        call (setDebugPrompt (finalPrompt r));;
        newSceneFile ← settle (dataURLtoFile (finalImageUrl r)
                                 ("generated-scene-" ++ pretty now ++ ".jpeg"));
        call (setSceneImage (Some newSceneFile)))
       (fun err =>
          call (setError (Some ("Failed to generate the image. "
                                ++ errorMessage err)))))
    (call (setIsLoading false);;
     call (setPersistedOrbPosition None)).

(** *** Touch drag and drop *)

Definition handleTouchStart (touch : Touch.TouchPoint) : Handler unit :=
  s ← getState;
  match selectedDoor s with
  | None => mret tt
  | Some _ =>
      call (setIsTouchDragging true);;
      call (setTouchGhostPosition
              (Some {| Touch.x := Touch.clientX touch; Touch.y := Touch.clientY touch |}))
  end.

(** [dropZone] is the rectangle of the element found by
    [elementFromPoint(...)?.closest(...)], if one is found. *)
Definition handleTouchMove (touch : Touch.TouchPoint) (dropZone : option Touch.DOMRect)
    : Handler unit :=
  s ← getState;
  if negb (isTouchDragging s) then mret tt
  else
    call (setTouchGhostPosition
            (Some {| Touch.x := Touch.clientX touch; Touch.y := Touch.clientY touch |}));;
    match dropZone with
    | Some rect =>
        call (setTouchOrbPosition
                (Some {| Touch.x := (Touch.clientX touch - Touch.left rect)%float;
                         Touch.y := (Touch.clientY touch - Touch.top rect)%float |}));;
        call (setIsHoveringDropZone true)
    | None =>
        call (setIsHoveringDropZone false);;
        call (setTouchOrbPosition None)
    end.

(** [sceneImg] is [sceneImgRef.current]. *)
Definition handleTouchEnd (touch : Touch.TouchPoint) (dropZone : option Touch.DOMRect)
    (sceneImg : option Touch.HTMLImageElement) : Handler unit :=
  s ← getState;
  if negb (isTouchDragging s) then mret tt
  else
    match dropZone, sceneImg with
    | Some containerRect, Some img =>
        match Touch.dropOnImage touch containerRect img with
        | Some (position, relativePosition) =>
            handleDoorDropStart position relativePosition;; mret tt
        | None => mret tt
        end
    | _, _ => mret tt
    end;;
    call (setIsTouchDragging false);;
    call (setTouchGhostPosition None);;
    call (setIsHoveringDropZone false);;
    call (setTouchOrbPosition None).

(** *** The loading message effect *)

Definition loadingMessages : list string :=
  [ "Analyzing your door...";
    "Surveying your space...";
    "Describing placement location with AI...";
    "Crafting the perfect composition prompt...";
    "Generating photorealistic options...";
    "Assembling the final scene..." ].

(** [loadingMessages[i]]: [None] is [undefined]. *)
Definition loadingMessageAt (i : Z) : option string :=
  if i <? 0 then None else loadingMessages !! Z.to_nat i.

(** The body of the effect, run when [isLoading] or [sceneImage] changed. *)
Definition loadingEffect : Handler unit :=
  s ← getState;
  if isLoading s && bool_decide (is_Some (sceneImage s))
  then call (setLoadingMessageIndex 0)
  else mret tt.

(** One tick of the interval; [%] is the remainder of JS. *)
Definition loadingTick : Handler unit :=
  call (fun s =>
          setLoadingMessageIndex
            (Z.rem (loadingMessageIndex s + 1) (Z.of_nat (length loadingMessages))) s).

(** ** [renderContent]: which of the screens is shown *)

Inductive View :=
| ErrorView (message : string)
| LoadingDoorView
| DoorSelectionView
| SceneUploadView (door : Types.Door)
| MainView (door : Types.Door) (loadingMessage : option (option string)).

Definition renderContent (s : AppState) : View :=
  match error s with
  | Some (String c r) => ErrorView (String c r)
  | _ =>
      if isLoading s && negb (bool_decide (is_Some (sceneImage s))) then LoadingDoorView
      else
        match selectedDoor s with
        | None => DoorSelectionView
        | Some door =>
            match sceneImage s with
            | None => SceneUploadView door
            | Some _ =>
                MainView door
                  (if isLoading s
                   then Some (loadingMessageAt (loadingMessageIndex s))
                   else None)
            end
        end
  end.

(** ** The object URL effects

    Both effects do nothing but return a cleanup.  React runs the cleanup of
    an effect when one of its dependencies differs from the previous render
    and when the component unmounts; the cleanup sees the URL of the render
    that installed it. *)

Module Effects.

(** [sceneImageUrl] of a render; [fresh] is what [URL.createObjectURL]
    returns in it. *)
Definition sceneImageUrl (fresh : string) (s : AppState) : option string :=
  match sceneImage s with
  | Some _ => Some fresh
  | None => None
  end.

Definition doorImageUrl (s : AppState) : option string :=
  match selectedDoor s with
  | Some door => Some (Types.imageUrl door)
  | None => None
  end.

(** The cleanups, on the log of the URLs given to [URL.revokeObjectURL]. *)
Definition sceneCleanup (sceneImageUrl : option string) (revoked : list string)
  : list string :=
  match sceneImageUrl with
  | Some url => if Str.truthy url then revoked ++ [url] else revoked
  | None => revoked
  end.

Definition doorCleanup (doorImageUrl : option string) (revoked : list string)
  : list string :=
  match doorImageUrl with
  | Some url =>
      if Str.truthy url && Str.startsWith url "blob:"
      then revoked ++ [url] else revoked
  | None => revoked
  end.

(** The URLs the installed cleanups hold, and the log. *)
Record Page := {
  sceneDep : option string;
  doorDep : option string;
  revoked : list string
}.

Definition mount (sceneImageUrl doorImageUrl : option string) : Page :=
  {| sceneDep := sceneImageUrl; doorDep := doorImageUrl; revoked := [] |}.

(** A later render with these two URLs. *)
Definition rerender (sceneImageUrl doorImageUrl : option string) (p : Page) : Page :=
  let r1 :=
    if decide (sceneImageUrl = sceneDep p) then revoked p
    else sceneCleanup (sceneDep p) (revoked p) in
  let r2 :=
    if decide (doorImageUrl = doorDep p) then r1
    else doorCleanup (doorDep p) r1 in
  {| sceneDep := sceneImageUrl; doorDep := doorImageUrl; revoked := r2 |}.

(** Unmounting: the log after both cleanups. *)
Definition unmount (p : Page) : list string :=
  doorCleanup (doorDep p) (sceneCleanup (sceneDep p) (revoked p)).

(** The URLs that [URL.createObjectURL] makes are blob URLs. *)
Definition isObjectURL (url : string) : bool := Str.startsWith url "blob:".

Definition objectURLOrNull (u : option string) : Prop :=
  match u with
  | Some url => isObjectURL url = true
  | None => True
  end.

Definition onlyObjectURLs (l : list string) : Prop :=
  forall url, In url l -> isObjectURL url = true.

(** The life of a mounted component: its later renders, first to last. *)
Definition renders (rs : list (option string * option string)) (p : Page) : Page :=
  foldl (fun p r => rerender r.1 r.2 p) p rs.

End Effects.

(** ** Events

    What can happen to a mounted [App].  The door cards of [DoorSelector]
    are built from its [doors] property, which [App] sets to
    [predefinedDoors], so [onSelect] is only ever given one of those. *)

Inductive Event :=
| DoorImageUpload (url : Web.Completion string) (now : Z) (file : Web.File)
| SelectPredefinedDoor (door : Types.Door)
| DoorFetched (outcome : FetchOutcome) (door : Types.Door)
| ProductDrop (position : Touch.Point) (relativePosition : Touch.RelativePosition)
| CompositeSettled (outcome : Web.Completion CompositeResult) (now : Z)
| ResetClick
| ChangeDoorClick
| ChangeSceneClick
| SceneFileSelect (file : Web.File)
| AddModal (open : bool)
| DebugModal (open : bool)
| TouchStart (touch : Touch.TouchPoint)
| TouchMove (touch : Touch.TouchPoint) (dropZone : option Touch.DOMRect)
| TouchEnd (touch : Touch.TouchPoint) (dropZone : option Touch.DOMRect)
    (sceneImg : option Touch.HTMLImageElement)
| LoadingEffect
| LoadingTick.

Definition handle (e : Event) : Handler unit :=
  match e with
  | DoorImageUpload url now file => handleDoorImageUpload url now file
  | SelectPredefinedDoor _ => handleSelectPredefinedDoorStart
  | DoorFetched outcome door => handleSelectPredefinedDoorResume outcome door
  | ProductDrop position relativePosition =>
      handleDoorDropStart position relativePosition;; mret tt
  | CompositeSettled outcome now => handleDoorDropResume outcome now
  | ResetClick => handleReset
  | ChangeDoorClick => handleChangeDoor
  | ChangeSceneClick => handleChangeScene
  | SceneFileSelect file => call (setSceneImage (Some file))
  | AddModal open => call (setIsAddModalOpen open)
  | DebugModal open => call (setIsDebugModalOpen open)
  | TouchStart touch => handleTouchStart touch
  | TouchMove touch dropZone => handleTouchMove touch dropZone
  | TouchEnd touch dropZone sceneImg => handleTouchEnd touch dropZone sceneImg
  | LoadingEffect => loadingEffect
  | LoadingTick => loadingTick
  end.

(** The door an event carries is one of the cards. *)
Definition offered (e : Event) : Prop :=
  match e with
  | SelectPredefinedDoor door | DoorFetched _ door => In door predefinedDoors
  | _ => True
  end.

Inductive reachable : World -> Prop :=
| reachable_initial : reachable initialWorld
| reachable_step e w :
    reachable w -> offered e -> reachable (handle e w).1.


(** ** Where a door's image can come from *)

Definition staticAssetPaths : list string := Types.imageUrl <$> predefinedDoors.

(** [url] is a static asset path of a predefined door, or the browser made
    it in a [URL.createObjectURL] call of this page for some file. *)
Definition knownImageUrl (w : World) (url : string) : Prop :=
  In url staticAssetPaths \/ exists file, In (file, url) (objectURLs w).

(** ** Invariants of the reachable states *)

(** The selected door, if any, shows an image of known origin. *)
Definition selectedKnown (w : World) : Prop :=
  forall d, selectedDoor (app w) = Some d -> knownImageUrl w (Types.imageUrl d).

(** The loading message index is an index of [loadingMessages]. *)
Definition validIndex (s : AppState) : Prop :=
  0 <= loadingMessageIndex s < Z.of_nat (length loadingMessages).

(** ** Sample inputs *)

Module Sample.

Definition door : Types.Door :=
  {| Types.id := 1; Types.name := "Classic Oak Panel";
     Types.imageUrl := "/assets/door-1.jpg" |}.

Definition doorBlob : Web.Blob :=
  {| Web.blobBytes := [255; 216; 255]; Web.blobType := "image/jpeg" |}.

Definition scene : Web.File :=
  {| Web.bytes := [137; 80; 78; 71]; Web.name := "room.png"; Web.type := "image/png" |}.

(** A door has been picked and a room photo uploaded. *)
Definition ready : World :=
  {| app := setSceneImage (Some scene)
              (setSelectedDoor (Some door)
                 (setDoorImageFile (Some (doorFile door doorBlob)) initialState));
     requests := []; objectURLs := [] |}.

(** The same with a touch drag under way. *)
Definition dragging : World :=
  {| app := setIsTouchDragging true (app ready); requests := []; objectURLs := [] |}.

Definition centre : Touch.Point := {| Touch.x := 200%float; Touch.y := 150%float |}.

Definition middle : Touch.RelativePosition :=
  {| Touch.xPercent := 50%float; Touch.yPercent := 50%float |}.

Definition touch : Touch.TouchPoint :=
  {| Touch.clientX := 200%float; Touch.clientY := 150%float |}.

Definition container : Touch.DOMRect :=
  {| Touch.left := 0%float; Touch.top := 0%float;
     Touch.width := 400%float; Touch.height := 300%float |}.

(** A scene image that has loaded, and one that has not (or is broken):
    its natural size reads 0 by 0. *)
Definition loadedImg : Touch.HTMLImageElement :=
  {| Touch.naturalWidth := 800; Touch.naturalHeight := 600 |}.

Definition unloadedImg : Touch.HTMLImageElement :=
  {| Touch.naturalWidth := 0; Touch.naturalHeight := 0 |}.

(** A one-pixel GIF as the service's answer, and an answer that is not a
    data URL. *)
Definition goodResult : CompositeResult :=
  {| finalImageUrl :=
       "data:image/gif;base64,R0lGODlhAQABAIAAAAAAAP///yH5BAEAAAAALAAAAAABAAEAAAIBRAA7";
     resultDebugImageUrl := None; finalPrompt := Some "place the door" |}.

Definition badResult : CompositeResult :=
  {| finalImageUrl := "https://example.com/scene.jpeg";
     resultDebugImageUrl := None; finalPrompt := None |}.

End Sample.

(** ** What [renderContent] passes to [ImageUploader]

    The properties of the ImageUploader of the main screen (l.413-425).
    They exist only where [renderContent] builds that screen: an error
    screen, the loading screen and the door selection have none. *)

Record SceneUploaderProps := {
  isDropZone : bool;
  showDebugButton : bool;
  persistedOrb : option Touch.Point;
  isTouchHovering : bool;
  touchOrb : option Touch.Point
}.

Definition sceneUploader (s : AppState) : option SceneUploaderProps :=
  match renderContent s with
  | MainView _ _ =>
      Some {| isDropZone := bool_decide (is_Some (sceneImage s)) && negb (isLoading s);
              showDebugButton :=
                match debugImageUrl s with
                | Some url => Str.truthy url && negb (isLoading s)
                | None => false
                end;
              persistedOrb := persistedOrbPosition s;
              isTouchHovering := isHoveringDropZone s;
              touchOrb := touchOrbPosition s |}
  | _ => None
  end.

(** ** Renders and the loading message effect

    After an event React renders again and runs the effect if one of its
    dependencies, [isLoading] and [sceneImage], differs from the previous
    render's.  Files are compared by content here, by identity in the
    program, so the effect may run once more there than here; what it does
    then is to set the index to 0 with [isLoading] set. *)

#[global] Instance File_eq_dec : EqDecision Web.File.
Proof. solve_decision. Defined.

Definition loadingDepsChanged (before after : AppState) : bool :=
  negb (Bool.eqb (isLoading before) (isLoading after))
  || negb (bool_decide (sceneImage before = sceneImage after)).

(** An event, then the effect if its dependencies changed. *)
Definition dispatch (e : Event) : Handler unit :=
  fun w =>
    let r := handle e w in
    if loadingDepsChanged (app w) (app r.1) then loadingEffect r.1 else r.

(** ** Renders that are not committed

    [App] calls [URL.createObjectURL] in its body (l.72), so every run of
    the body with a scene image makes a new URL.  React may run the body
    and throw the result away; the effects of such a render are never
    installed, and neither are their cleanups. *)

Record Render := {
  sceneUrl : option string;
  doorUrl : option string;
  committed : bool
}.

(** The page with the log of the URLs made. *)
Record Life := { page : Effects.Page; created : list string }.

Definition born (sceneImageUrl doorImageUrl : option string) : Life :=
  {| page := Effects.mount sceneImageUrl doorImageUrl;
     created := match sceneImageUrl with Some url => [url] | None => [] end |}.

Definition afterRender (l : Life) (r : Render) : Life :=
  {| page := if committed r then Effects.rerender (sceneUrl r) (doorUrl r) (page l)
             else page l;
     created := match sceneUrl r with
                | Some url => created l ++ [url]
                | None => created l
                end |}.

Definition lifetime (rs : list Render) (l : Life) : Life := foldl afterRender l rs.

(** The log of revoked URLs once the component has unmounted. *)
Definition revokedAtEnd (l : Life) : list string := Effects.unmount (page l).

(** No committed render has [url] as its scene or door URL. *)
Definition notInstalled (url : string) (r : Render) : Prop :=
  committed r = true -> sceneUrl r <> Some url /\ doorUrl r <> Some url.

(** ** More invariants of the reachable states *)

(** A door is selected exactly when its file is held. *)
Definition doorPaired (s : AppState) : Prop :=
  is_Some (selectedDoor s) <-> is_Some (doorImageFile s).

(** The ghost follows the drag, the orb follows the hovering, and there is
    no hovering without a drag. *)
Definition touchConsistent (s : AppState) : Prop :=
  (isTouchDragging s = true <-> is_Some (touchGhostPosition s)) /\
  (isHoveringDropZone s = true <-> is_Some (touchOrbPosition s)) /\
  (isTouchDragging s = false -> isHoveringDropZone s = false).

(** The error is never the empty string, which [renderContent] would take
    for no error. *)
Definition noEmptyError (s : AppState) : Prop := error s <> Some EmptyString.

(** The events whose handler calls [setSceneImage], and those whose handler
    can reach the call of [generateCompositeImage]. *)
Definition replacesScene (e : Event) : bool :=
  match e with
  | SceneFileSelect _ | ResetClick | ChangeSceneClick | CompositeSettled _ _ => true
  | _ => false
  end.

Definition sendsRequest (e : Event) : bool :=
  match e with
  | ProductDrop _ _ | TouchEnd _ _ _ => true
  | _ => false
  end.

(** [n] ticks of the interval. *)
Definition ticks (n : nat) (w : World) : World :=
  Nat.iter n (fun w => (loadingTick w).1) w.

(** ** Shapes of strings *)

(** No semicolon and no line terminator: what [(.*?);] can capture. *)
Definition plain (mime : string) : Prop :=
  forall c, In c (list_ascii_of_string mime) ->
            c <> ";"%char /\ Str.isLineTerminator c = false.

Definition slashFree (s : string) : Prop := ~ In "/"%char (list_ascii_of_string s).

(** ** Base64 encoding

    The standard encoding (RFC 4648, with padding) that the payload of a
    base64 data URL is written in; it is what [atob] is there to undo. *)

Definition alphabetChar (v : Z) : ascii :=
  ascii_of_N (Z.to_N (if v <? 26 then v + 65
                      else if v <? 52 then v + 71
                      else if v <? 62 then v - 4
                      else if v =? 62 then 43 else 47)).

Fixpoint encodeBytes (l : list Z) : list ascii :=
  match l with
  | a :: b :: c :: r =>
      let n := a * 65536 + b * 256 + c in
      alphabetChar (n / 262144) :: alphabetChar ((n / 4096) mod 64)
        :: alphabetChar ((n / 64) mod 64) :: alphabetChar (n mod 64) :: encodeBytes r
  | [a; b] =>
      let n := (a * 256 + b) * 4 in
      [alphabetChar (n / 4096); alphabetChar ((n / 64) mod 64); alphabetChar (n mod 64);
       "="%char]
  | [a] =>
      let n := a * 16 in
      [alphabetChar (n / 64); alphabetChar (n mod 64); "="%char; "="%char]
  | [] => []
  end.

Definition base64 (l : list Z) : string := string_of_list_ascii (encodeBytes l).

Definition isSextet (v : Z) : Prop := 0 <= v < 64.

(** What the decoder needs of an encoding [e] of [bs]. *)
Definition decodable (bs : list Z) (e : list ascii) : Prop :=
  Forall (fun c => Web.isAsciiWhitespace c = false) e /\
  (length e mod 4 = 0)%nat /\
  (e = [] -> bs = []) /\
  exists vs, rev (Web.stripPadding (rev e)) = alphabetChar <$> vs /\
             Forall isSextet vs /\ (length vs mod 4 <> 1)%nat /\
             Web.decodeSextets vs = bs.

(** ** More sample inputs *)

Module Scenario.

(** A failed generation: the drop of [Sample.ready], then the service
    rejecting. *)
Definition failed : World :=
  (handle (CompositeSettled (Web.Throw (Web.ErrorObject "quota exceeded")) 0)
     (handle (ProductDrop Sample.centre Sample.middle) Sample.ready).1).1.

(** A finger on the door card, moved over the drop zone. *)
Definition hovering : World :=
  (handle (TouchMove Sample.touch (Some Sample.container))
     (handle (TouchStart Sample.touch) Sample.ready).1).1.

Definition page : Effects.Page :=
  Effects.mount (Some "blob:http://localhost/scene-1") (Some "blob:http://localhost/door-1").

(** A generation under way for two ticks, and a finger put on the door
    card. *)
Definition generating : World :=
  (dispatch (TouchStart Sample.touch)
     (dispatch LoadingTick
        (dispatch LoadingTick
           (dispatch (ProductDrop Sample.centre Sample.middle) Sample.ready).1).1).1).1.

(** The finger lifted over the scene: a second generation starts. *)
Definition generatingTwice : World :=
  (dispatch (TouchEnd Sample.touch (Some Sample.container) (Some Sample.loadedImg))
     generating).1.

(** A life of [App] with one render thrown away. *)
Definition life : Life :=
  lifetime
    [ {| sceneUrl := Some "blob:http://localhost/scene-2";
         doorUrl := Some "/assets/door-1.jpg"; committed := false |};
      {| sceneUrl := Some "blob:http://localhost/scene-3";
         doorUrl := Some "/assets/door-1.jpg"; committed := true |} ]
    (born (Some "blob:http://localhost/scene-1") (Some "/assets/door-1.jpg")).

End Scenario.

(** * Properties *)

(** ** Running handlers *)

(** Unfold a handler down to the record it builds. *)
Ltac run :=
  cbv [handleReset handleChangeDoor handleChangeScene
       handleDoorDrop handleDoorDropStart handleDoorDropResume
       handleSelectPredefinedDoor handleSelectPredefinedDoorStart
       handleSelectPredefinedDoorResume fetchDoor
       handleDoorImageUpload handleTouchStart handleTouchMove handleTouchEnd
       loadingEffect loadingTick handle
       generateCompositeImage sendRequest createObjectURL
       call getState settle tryCatch tryFinally
       mbind mret mthrow Handler_bind Handler_ret Handler_throw] in *;
  cbn [app requests objectURLs fst snd negb] in *.

(** Split on what the environment answered. *)
Ltac inputs :=
  repeat match goal with
    | x : Web.Completion _ |- _ => destruct x
    | x : FetchOutcome |- _ => destruct x
    | x : option _ |- _ => destruct x
    | x : bool |- _ => destruct x
    end.

(** Split on what the handler tests, innermost test first. *)
Ltac cases :=
  repeat (cbn [fst snd app requests objectURLs negb];
          match goal with
          | |- context [match ?x with _ => _ end] =>
              lazymatch x with
              | context [match _ with _ => _ end] => fail
              | _ => destruct x eqn:?
              end
          end);
  cbn [fst snd app requests objectURLs negb].


(** ** [handleReset] *)

(** C10: after [handleReset] the selected door, the door file, the scene
    image, the error, the persisted orb position and the debug payload are
    all null and [isLoading] is false, whatever the state was; so
    [renderContent] shows the door selection. *)
Theorem handleReset_restores (w : World) :
  let s' := app (handleReset w).1 in
  selectedDoor s' = None /\ doorImageFile s' = None /\ sceneImage s' = None /\
  error s' = None /\ persistedOrbPosition s' = None /\ debugImageUrl s' = None /\
  debugPrompt s' = None /\ isLoading s' = false /\
  renderContent s' = DoorSelectionView.
Proof. run. cbn. repeat split. Qed.

(** ** [handleTouchEnd] *)

(** C7: a touchend handled while a touch drag is active leaves
    [isTouchDragging] and [isHoveringDropZone] false and both touch
    positions null, wherever the finger was lifted. *)
Theorem handleTouchEnd_idle (touch : Touch.TouchPoint)
    (dropZone : option Touch.DOMRect) (sceneImg : option Touch.HTMLImageElement)
    (w : World) :
  isTouchDragging (app w) = true ->
  let s' := app (handleTouchEnd touch dropZone sceneImg w).1 in
  isTouchDragging s' = false /\ touchGhostPosition s' = None /\
  touchOrbPosition s' = None /\ isHoveringDropZone s' = false.
Proof.
  intros H. run. rewrite H.
  destruct dropZone as [rect|], sceneImg as [img|]; cbn; try by repeat split.
  destruct (Touch.dropOnImage touch rect img) as [[position relativePosition]|]; cbn;
    try by repeat split.
  destruct (doorImageFile (app w)), (sceneImage (app w)), (selectedDoor (app w));
    cbn; by repeat split.
Qed.

Lemma handleTouchEnd_idle_witness :
  isTouchDragging (app Sample.dragging) = true /\
  let s' := app (handleTouchEnd Sample.touch (Some Sample.container)
                   (Some Sample.loadedImg) Sample.dragging).1 in
  isTouchDragging s' = false /\ touchGhostPosition s' = None /\
  touchOrbPosition s' = None /\ isHoveringDropZone s' = false.
Proof.
  split; [reflexivity|].
  apply (handleTouchEnd_idle Sample.touch (Some Sample.container)
           (Some Sample.loadedImg) Sample.dragging).
  reflexivity.
Defined.

(** ** [handleDoorDrop] *)

(** C3: with a door file, a scene image and a selected door, one call of
    [handleDoorDrop] sends exactly one request to [generateCompositeImage],
    built from those three; if one of them is null it sends none and sets
    the error message. *)
Theorem handleDoorDrop_calls (outcome : Web.Completion CompositeResult) (now : Z)
    (position : Touch.Point) (relativePosition : Touch.RelativePosition) (w : World) :
  let w' := (handleDoorDrop outcome now position relativePosition w).1 in
  (forall f sc d,
      doorImageFile (app w) = Some f -> sceneImage (app w) = Some sc ->
      selectedDoor (app w) = Some d ->
      requests w' = (requests w ++
        [{| objectImage := f; objectDescription := Types.name d;
            environmentImage := sc; environmentDescription := Web.name sc;
            dropPosition := relativePosition |}])%list) /\
  (doorImageFile (app w) = None \/ sceneImage (app w) = None \/
   selectedDoor (app w) = None ->
   requests w' = requests w /\
   error (app w') = Some "An unexpected error occurred. Please try again.").
Proof.
  run. split.
  - intros f sc d -> -> ->.
    destruct outcome as [r|e]; cbn [app requests objectURLs fst snd]; [|reflexivity].
    destruct (dataURLtoFile _ _); reflexivity.
  - intros H.
    destruct (doorImageFile (app w)), (sceneImage (app w)), (selectedDoor (app w));
      try (split; reflexivity).
    destruct H as [H|[H|H]]; discriminate H.
Qed.

Lemma handleDoorDrop_calls_witness :
  length (requests (handleDoorDrop (Web.Normal Sample.goodResult) 0
                      Sample.centre Sample.middle Sample.ready).1) = 1%nat /\
  requests (handleDoorDrop (Web.Normal Sample.goodResult) 0
              Sample.centre Sample.middle initialWorld).1 = [] /\
  error (app (handleDoorDrop (Web.Normal Sample.goodResult) 0
                Sample.centre Sample.middle initialWorld).1)
  = Some "An unexpected error occurred. Please try again.".
Proof.
  split.
  - rewrite (proj1 (handleDoorDrop_calls (Web.Normal Sample.goodResult) 0
                      Sample.centre Sample.middle Sample.ready)
               _ _ _ eq_refl eq_refl eq_refl).
    reflexivity.
  - apply (proj2 (handleDoorDrop_calls (Web.Normal Sample.goodResult) 0
                    Sample.centre Sample.middle initialWorld)).
    left. reflexivity.
Defined.

(** C2, as the code has it: with the three present, the scene image is
    replaced exactly when the call succeeds and [dataURLtoFile] accepts the
    returned URL; when the call throws, or the conversion does, the scene
    image stays and the error message is set.  In every case [isLoading] is
    false and [persistedOrbPosition] is null at the end. *)
Theorem handleDoorDrop_outcome (outcome : Web.Completion CompositeResult) (now : Z)
    (position : Touch.Point) (relativePosition : Touch.RelativePosition) (w : World) :
  is_Some (doorImageFile (app w)) -> is_Some (sceneImage (app w)) ->
  is_Some (selectedDoor (app w)) ->
  let s' := app (handleDoorDrop outcome now position relativePosition w).1 in
  match outcome with
  | Web.Normal r =>
      match dataURLtoFile (finalImageUrl r) ("generated-scene-" ++ pretty now ++ ".jpeg") with
      | Web.Normal newSceneFile =>
          sceneImage s' = Some newSceneFile /\ error s' = None
      | Web.Throw err =>
          sceneImage s' = sceneImage (app w) /\
          error s' = Some ("Failed to generate the image. " ++ errorMessage err)
      end
  | Web.Throw err =>
      sceneImage s' = sceneImage (app w) /\
      error s' = Some ("Failed to generate the image. " ++ errorMessage err)
  end /\
  isLoading s' = false /\ persistedOrbPosition s' = None.
Proof.
  intros [f Hf] [sc Hsc] [d Hd]. run. rewrite Hf, Hsc, Hd.
  destruct outcome as [r|e]; cbn [app requests objectURLs fst snd].
  - destruct (dataURLtoFile _ _); cbn [app requests objectURLs fst snd]; cbn;
      by rewrite ?Hsc.
  - cbn. by rewrite ?Hsc.
Qed.

Lemma handleDoorDrop_outcome_witness :
  let s' := app (handleDoorDrop (Web.Normal Sample.goodResult) 1700000000000
                   Sample.centre Sample.middle Sample.ready).1 in
  (Web.name <$> sceneImage s') = Some "generated-scene-1700000000000.jpeg" /\
  (Web.type <$> sceneImage s') = Some "image/gif" /\
  error s' = None /\ isLoading s' = false /\ persistedOrbPosition s' = None.
Proof.
  pose proof (handleDoorDrop_outcome (Web.Normal Sample.goodResult) 1700000000000
                Sample.centre Sample.middle Sample.ready
                (ex_intro _ _ eq_refl) (ex_intro _ _ eq_refl) (ex_intro _ _ eq_refl))
    as H.
  vm_compute in H. vm_compute. tauto.
Defined.

(** C2 as stated fails: the call succeeds, but what it returns is not a data
    URL, so nothing replaces the scene image and the error is set. *)
Lemma handleDoorDrop_success_not_replaced :
  let s' := app (handleDoorDrop (Web.Normal Sample.badResult) 0
                   Sample.centre Sample.middle Sample.ready).1 in
  sceneImage s' = Some Sample.scene /\
  sceneImage s' = sceneImage (app Sample.ready) /\
  error s' = Some "Failed to generate the image. Invalid data URL".
Proof. vm_compute. repeat split. Qed.

(** ** [handleSelectPredefinedDoor] *)


(** A door card is clicked and its image arrives: the file stored has the
    bytes of the response and the name of the asset. *)
Example handleSelectPredefinedDoor_fetched :
  doorImageFile (app (handleSelectPredefinedDoor
                        (Responded true (Web.Normal Sample.doorBlob))
                        Sample.door initialWorld).1)
  = Some {| Web.bytes := [255; 216; 255]; Web.name := "door-1.jpg";
            Web.type := "image/jpeg" |}.
Proof. reflexivity. Qed.

(** ** The loading message index *)

Lemma handle_validIndex e w : validIndex (app w) -> validIndex (app (handle e w).1).
Proof.
  unfold validIndex. intros H.
  destruct e; inputs; run; try (cases; cbn; first [exact H | done]).
  cbn in *.
  split; [apply Z.rem_nonneg; lia | apply Z.rem_bound_pos; lia].
Qed.

Lemma reachable_validIndex w : reachable w -> validIndex (app w).
Proof.
  induction 1 as [|e w _ IH _]; [by cbv|by apply handle_validIndex].
Qed.

Lemma validIndex_message s : validIndex s -> is_Some (loadingMessageAt (loadingMessageIndex s)).
Proof.
  unfold validIndex, loadingMessageAt. intros [H0 H1].
  destruct (Z.ltb_spec (loadingMessageIndex s) 0) as [?|_]; [lia|].
  apply lookup_lt_is_Some. lia.
Qed.

Lemma dispatch_reachable e w : reachable w -> offered e -> reachable (dispatch e w).1.
Proof.
  intros Hw He. unfold dispatch. cbv zeta.
  destruct (loadingDepsChanged _ _).
  - apply (reachable_step LoadingEffect); [|done]. by apply reachable_step.
  - by apply reachable_step.
Qed.

Lemma drop_resets w position relativePosition :
  isLoading (app w) = false ->
  is_Some (doorImageFile (app w)) -> is_Some (sceneImage (app w)) ->
  is_Some (selectedDoor (app w)) ->
  let w' := (dispatch (ProductDrop position relativePosition) w).1 in
  length (requests w') = S (length (requests w)) /\
  isLoading (app w') = true /\ loadingMessageIndex (app w') = 0.
Proof.
  intros Hl [f Hf] [sc Hsc] [d Hd]. unfold dispatch, loadingDepsChanged. run.
  rewrite Hf, Hsc, Hd. cbn. rewrite Hl. cbn. rewrite Hsc. cbn.
  rewrite length_app. cbn. split; [lia|done].
Qed.

Lemma touch_drop_resets w touch rect img position relativePosition :
  isLoading (app w) = false ->
  is_Some (doorImageFile (app w)) -> is_Some (sceneImage (app w)) ->
  is_Some (selectedDoor (app w)) ->
  isTouchDragging (app w) = true ->
  Touch.dropOnImage touch rect img = Some (position, relativePosition) ->
  let w' := (dispatch (TouchEnd touch (Some rect) (Some img)) w).1 in
  length (requests w') = S (length (requests w)) /\
  isLoading (app w') = true /\ loadingMessageIndex (app w') = 0.
Proof.
  intros Hl [f Hf] [sc Hsc] [d Hd] Ht Hdrop. unfold dispatch, loadingDepsChanged. run.
  rewrite Ht, Hdrop. cbn [negb fst snd app requests].
  rewrite Hf, Hsc, Hd. cbn. rewrite Hl. cbn. rewrite Hsc. cbn.
  rewrite length_app. cbn. split; [lia|done].
Qed.




(** ** The selected door *)

Lemma handle_objectURLs e w :
  exists l, objectURLs (handle e w).1 = (objectURLs w ++ l)%list.
Proof.
  destruct e; inputs; run; cases; cbn [objectURLs fst];
    first [ by eexists | exists []; by rewrite app_nil_r ].
Qed.

Lemma knownImageUrl_mono w l (w' : World) url :
  objectURLs w' = (objectURLs w ++ l)%list -> knownImageUrl w url -> knownImageUrl w' url.
Proof.
  intros E [H|[file H]]; [by left|right].
  exists file. rewrite E. apply in_or_app. by left.
Qed.

Lemma handle_selectedKnown e w :
  offered e -> selectedKnown w -> selectedKnown (handle e w).1.
Proof.
  intros He H d.
  destruct (handle_objectURLs e w) as [l El].
  pose proof (fun url => knownImageUrl_mono w l (handle e w).1 url El) as Hm.
  revert Hm. clear El.
  destruct e; inputs; run; cases; cbn; intros Hm Hd;
    try discriminate Hd; try (apply Hm, H; exact Hd).
  - injection Hd as <-. right. exists file. cbn. apply in_or_app. right. by left.
  - injection Hd as <-. left. by apply in_map.
Qed.

Lemma reachable_selectedKnown w : reachable w -> selectedKnown w.
Proof.
  induction 1 as [|e w _ IH He]; [intros d Hd; discriminate Hd|].
  by apply handle_selectedKnown.
Qed.

(** C4: a [Door] is its identifier, its name and its image URL and nothing
    more; and in every reachable state the image URL of the selected door
    is the asset path of one of the five predefined doors or a URL that
    [URL.createObjectURL] returned for an uploaded file. *)
Theorem selectedDoor_origin :
  (forall d : Types.Door,
      d = {| Types.id := Types.id d; Types.name := Types.name d;
             Types.imageUrl := Types.imageUrl d |}) /\
  length predefinedDoors = 5%nat /\
  (forall w d, reachable w -> selectedDoor (app w) = Some d ->
               In (Types.imageUrl d) (Types.imageUrl <$> predefinedDoors) \/
               exists file, In (file, Types.imageUrl d) (objectURLs w)).
Proof.
  split; [by intros []|]. split; [reflexivity|].
  intros w d Hw Hd. exact (reachable_selectedKnown w Hw d Hd).
Qed.

Lemma selectedDoor_origin_witness :
  let w := (handle (DoorFetched (Responded true (Web.Normal Sample.doorBlob))
                      Sample.door) initialWorld).1 in
  selectedDoor (app w) = Some Sample.door /\
  (In "/assets/door-1.jpg" (Types.imageUrl <$> predefinedDoors) \/
   exists file, In (file, "/assets/door-1.jpg") (objectURLs w)).
Proof.
  split; [reflexivity|].
  apply (proj2 (proj2 selectedDoor_origin) _ Sample.door).
  - apply reachable_step; [apply reachable_initial|]. left. reflexivity.
  - reflexivity.
Defined.

(** ** [dataURLtoFile] *)

Lemma get_lookup s n : String.get n s = list_ascii_of_string s !! n.
Proof. revert n. induction s as [|c s IH]; intros [|n]; cbn; auto. Qed.

Lemma length_list_ascii s : length (list_ascii_of_string s) = String.length s.
Proof. induction s; cbn; auto. Qed.

Lemma code_bounded c : 0 <= Z.of_N (N_of_ascii c) < 256.
Proof. pose proof (N_ascii_bounded c). lia. Qed.

Lemma charCodeAt_lookup bstr m :
  (m < String.length bstr)%nat ->
  codes (list_ascii_of_string bstr) !! m = Some (Str.charCodeAt bstr m mod 256).
Proof.
  intros H. unfold Str.charCodeAt, codes. rewrite get_lookup, list_lookup_fmap.
  rewrite <- length_list_ascii in H.
  destruct (lookup_lt_is_Some_2 _ _ H) as [c ->]. cbn.
  by rewrite Z.mod_small by apply code_bounded.
Qed.

Lemma fillFromEnd_spec bstr n u8arr :
  length u8arr = String.length bstr -> (n <= String.length bstr)%nat ->
  fillFromEnd bstr n u8arr
  = (take n (codes (list_ascii_of_string bstr)) ++ drop n u8arr)%list.
Proof.
  revert u8arr. induction n as [|m IH]; intros u8arr Hl Hn; [done|].
  cbn [fillFromEnd]. rewrite IH; [|by rewrite length_insert|lia].
  rewrite (take_S_r _ _ _ (charCodeAt_lookup bstr m ltac:(lia))).
  rewrite <- app_assoc. f_equal. cbn.
  rewrite insert_take_drop by lia.
  rewrite drop_app_length'; [done|]. rewrite length_take. lia.
Qed.

Lemma fillFromEnd_all bstr :
  fillFromEnd bstr (String.length bstr) (replicate (String.length bstr) 0)
  = codes (list_ascii_of_string bstr).
Proof.
  rewrite fillFromEnd_spec; [|by rewrite length_replicate|done].
  rewrite take_ge, drop_ge, app_nil_r; [done| |].
  - rewrite length_replicate. lia.
  - unfold codes. rewrite length_fmap, length_list_ascii. lia.
Qed.

Lemma codes_stringOfBytes bs :
  Forall isByte bs -> codes (list_ascii_of_string (Web.stringOfBytes bs)) = bs.
Proof.
  intros H. unfold Web.stringOfBytes, codes.
  rewrite list_ascii_of_string_of_list_ascii.
  induction H as [|b bs Hb _ IH]; [done|]. cbn. f_equal; [|exact IH].
  rewrite N_ascii_embedding; unfold isByte in Hb; lia.
Qed.

Lemma sextet_range c v : Web.sextet c = Some v -> 0 <= v < 64.
Proof.
  unfold Web.sextet. pose proof (code_bounded c).
  repeat case_match; intros [= <-]; lia.
Qed.

Lemma sextets_range l vs : Web.sextets l = Some vs -> Forall (fun v => 0 <= v < 64) vs.
Proof.
  revert vs. induction l as [|c l IH]; intros vs; cbn; [by intros [= <-]|].
  destruct (Web.sextet c) eqn:Hc; [|done].
  destruct (Web.sextets l); [|done]. intros [= <-].
  constructor; [by eapply sextet_range|by apply IH].
Qed.

Lemma sextets_In l vs c : Web.sextets l = Some vs -> In c l -> is_Some (Web.sextet c).
Proof.
  revert vs. induction l as [|a l IH]; intros vs; cbn; [done|].
  destruct (Web.sextet a) eqn:Ha; [|done].
  destruct (Web.sextets l) eqn:Hl; [|done]. intros _ [<-|H]; [by eexists|].
  by eapply IH.
Qed.

Lemma decodeSextets_bytes vs :
  Forall (fun v => 0 <= v < 64) vs -> Forall isByte (Web.decodeSextets vs).
Proof.
  assert (forall n vs, (length vs <= n)%nat ->
            Forall (fun v => 0 <= v < 64) vs -> Forall isByte (Web.decodeSextets vs)) as H.
  { clear vs. induction n as [|n IH]; intros vs Hn Hv.
    - destruct vs; [constructor|cbn in Hn; lia].
    - destruct Hv as [|a ? Ha Hv]; [constructor|].
      destruct Hv as [|b ? Hb Hv]; [constructor|].
      destruct Hv as [|c ? Hc Hv].
      { cbn. repeat constructor; unfold isByte; Z.div_mod_to_equations; lia. }
      destruct Hv as [|d l Hd Hv].
      { cbn. repeat constructor; unfold isByte; Z.div_mod_to_equations; lia. }
      cbn [Web.decodeSextets].
      repeat (constructor; [unfold isByte; Z.div_mod_to_equations; lia|]).
      apply IH; [cbn in Hn; lia|done]. }
  by apply (H (length vs)).
Qed.

Lemma In_stripPadding c r : In c r -> c <> "="%char -> In c (Web.stripPadding r).
Proof.
  intros H Hc. unfold Web.stripPadding.
  destruct r as [|a r]; [done|].
  destruct (ascii_dec a "=") as [->|Ha].
  - destruct H as [H|H]; [done|].
    destruct r as [|b r]; [done|].
    destruct (ascii_dec b "=") as [->|Hb].
    + destruct H as [H|H]; done.
    + repeat case_match; try done; by subst.
  - repeat case_match; try done; by subst.
Qed.

Lemma decode_no_comma data bs :
  Web.forgivingBase64Decode data = Some bs -> ~ In ","%char (list_ascii_of_string data).
Proof.
  unfold Web.forgivingBase64Decode. intros H Hin.
  set (d1 := filter (fun c => Web.isAsciiWhitespace c = false)
                   (list_ascii_of_string data)) in H.
  assert (In ","%char d1) as H1.
  { apply list_elem_of_In, list_elem_of_filter. split; [by vm_compute|by apply list_elem_of_In]. }
  set (d2 := if (length d1 mod 4 =? 0)%nat
             then rev (Web.stripPadding (rev d1)) else d1) in H.
  assert (In ","%char d2) as H2.
  { unfold d2. destruct (length d1 mod 4 =? 0)%nat; [|done]. apply in_rev. rewrite rev_involutive.
    apply In_stripPadding; [by apply in_rev in H1|done]. }
  destruct (length d2 mod 4 =? 1)%nat; [done|].
  destruct (Web.sextets d2) as [vs|] eqn:Hv; [|done].
  by destruct (sextets_In _ _ _ Hv H2).
Qed.

Lemma decode_bytes data bs :
  Web.forgivingBase64Decode data = Some bs -> Forall isByte bs.
Proof.
  unfold Web.forgivingBase64Decode.
  set (d2 := if (_ =? 0)%nat then _ else _). case_match; [done|].
  destruct (Web.sextets d2) as [vs|] eqn:Hv; [|done]. intros [= <-].
  by eapply decodeSextets_bytes, sextets_range.
Qed.

Lemma split_app sep h p :
  ~ In sep (list_ascii_of_string h) ->
  Str.split sep (h ++ String sep p) = h :: Str.split sep p.
Proof.
  induction h as [|c h IH]; intros Hn.
  - change (Str.split sep (String sep p) = "" :: Str.split sep p).
    cbn [Str.split]. by rewrite Ascii.eqb_refl.
  - change (Str.split sep (String c (h ++ String sep p)) = String c h :: Str.split sep p).
    cbn [Str.split list_ascii_of_string] in *.
    destruct (Ascii.eqb_spec c sep) as [->|Hc]; [destruct Hn; by left|].
    rewrite IH; [done|]. intros H. apply Hn. by right.
Qed.

Lemma split_none sep s :
  ~ In sep (list_ascii_of_string s) -> Str.split sep s = [s].
Proof.
  induction s as [|c s IH]; intros Hn; cbn [Str.split list_ascii_of_string] in *; [done|].
  destruct (Ascii.eqb_spec c sep) as [->|Hc]; [destruct Hn; by left|].
  rewrite IH; [done|]. intros H. apply Hn. by right.
Qed.

Lemma normalizeType_lowerPrintable t : lowerPrintable t -> Web.normalizeType t = t.
Proof.
  unfold lowerPrintable, Web.normalizeType. intros H.
  assert (forallb Web.isPrintable (list_ascii_of_string t) = true) as ->.
  { apply forallb_forall. intros c Hc. rewrite List.Forall_forall in H. by apply H. }
  assert (Web.toAsciiLower <$> list_ascii_of_string t = list_ascii_of_string t) as ->.
  { induction H as [|c l [_ Hc] _ IH]; [done|]. cbn. by rewrite Hc, IH. }
  apply string_of_list_ascii_of_string.
Qed.

(** C8, as the code has it: [dataURLtoFile] throws exactly when the input
    has no comma, or its part before the first comma has no [:<mime>;] with
    a non-empty MIME type, or [atob] refuses the part between the first and
    the second comma.  For an input whose header gives a MIME type and
    whose payload after the first comma is valid base64, it returns a File
    with the given name, the decoded bytes and the type the File
    constructor makes of that MIME type: the MIME type in lower case, or
    the empty string if it has a character outside U+0020..U+007E; a MIME
    type that is lower-case printable ASCII is kept as it is. *)
Theorem dataURLtoFile_spec :
  (forall dataurl filename,
      (exists e, dataURLtoFile dataurl filename = Web.Throw e) <->
      noPayload dataurl \/ noMime dataurl \/ undecodable dataurl) /\
  (forall header payload filename mime bs,
      ~ In ","%char (list_ascii_of_string header) ->
      Str.matchMime header = Some mime -> mime <> EmptyString ->
      Web.forgivingBase64Decode payload = Some bs ->
      dataURLtoFile (header ++ String "," payload) filename
      = Web.Normal {| Web.bytes := bs; Web.name := filename;
                      Web.type := Web.normalizeType mime |} /\
      (lowerPrintable mime ->
       dataURLtoFile (header ++ String "," payload) filename
       = Web.Normal {| Web.bytes := bs; Web.name := filename; Web.type := mime |})).
Proof.
  split.
  - intros dataurl filename. unfold dataURLtoFile, noPayload, noMime, undecodable.
    destruct (Str.split "," dataurl) as [|arr0 [|arr1 rest]]; cbn [length lookup list_lookup].
    + split; [left; lia|by eexists].
    + split; [left; lia|by eexists].
    + destruct (Str.matchMime arr0) as [[|c mime]|] eqn:Hm; cbn.
      * split; [|by eexists]. intros _. right. left. intros ? ? [= <-]. by rewrite Hm; intros [= <-].
      * destruct (Web.atob arr1) eqn:Ha.
        -- split; [by intros [e He]|]. intros [H|[H|[a [[= <-] H]]]]; [lia| |congruence].
           by specialize (H _ _ eq_refl Hm).
        -- split; [|by eexists]. intros _. right. right. by eexists.
      * split; [|by eexists]. intros _. right. left. intros ? ? [= <-]. by rewrite Hm.
  - intros header payload filename mime bs Hh Hm Hne Hd.
    assert (dataURLtoFile (header ++ String "," payload) filename
            = Web.Normal {| Web.bytes := bs; Web.name := filename;
                            Web.type := Web.normalizeType mime |}) as H.
    { unfold dataURLtoFile. rewrite split_app by done.
      rewrite split_none by by eapply decode_no_comma.
      rewrite Hm. destruct mime as [|c mime]; [done|]. cbn [Str.truthy].
      unfold Web.atob. rewrite Hd. cbn [fmap option_fmap option_map].
      rewrite fillFromEnd_all, codes_stringOfBytes; [done|by eapply decode_bytes]. }
    split; [exact H|]. intros Hl. by rewrite H, normalizeType_lowerPrintable.
Qed.

Lemma dataURLtoFile_spec_witness :
  dataURLtoFile "data:image/png;base64,QUJD" "scene.jpeg"
  = Web.Normal {| Web.bytes := [65; 66; 67]; Web.name := "scene.jpeg";
                  Web.type := "image/png" |}.
Proof.
  apply (proj2 dataURLtoFile_spec "data:image/png;base64" "QUJD" "scene.jpeg"
           "image/png" [65; 66; 67]).
  - cbn. intuition discriminate.
  - reflexivity.
  - discriminate.
  - reflexivity.
  - repeat constructor.
Defined.

(** C8 as stated fails twice.  The first input has a comma and a MIME type,
    and [dataURLtoFile] throws all the same, because its payload is not
    base64.  The second is a well-formed data URL whose MIME type is
    written in upper case: the File returned does not have the parsed MIME
    type, but that type in lower case. *)
Lemma dataURLtoFile_throws_on_bad_base64 :
  let dataurl := "data:image/png;base64,not*base64" in
  (Str.split "," dataurl = ["data:image/png;base64"; "not*base64"] /\
   Str.matchMime "data:image/png;base64" = Some "image/png" /\
   ~ noPayload dataurl /\ ~ noMime dataurl /\
   dataURLtoFile dataurl "scene.jpeg" = Web.Throw Web.invalidCharacterError) /\
  (Str.matchMime "data:IMAGE/PNG;base64" = Some "IMAGE/PNG" /\
   dataURLtoFile "data:IMAGE/PNG;base64,QUJD" "scene.jpeg"
   = Web.Normal {| Web.bytes := [65; 66; 67]; Web.name := "scene.jpeg";
                   Web.type := "image/png" |}).
Proof.
  cbv zeta. split; [|split; reflexivity].
  split; [reflexivity|]. split; [reflexivity|]. split; [|split].
  - unfold noPayload. cbn. lia.
  - intros H. by specialize (H _ _ eq_refl eq_refl).
  - reflexivity.
Qed.

(** ** The object URL effects *)

Section Cleanups.

Import Effects.

Lemma isObjectURL_truthy url : isObjectURL url = true -> Str.truthy url = true.
Proof. by destruct url. Qed.

Lemma In_sceneCleanup url r : Str.truthy url = true -> In url (sceneCleanup (Some url) r).
Proof. intros H. cbn. rewrite H. apply in_or_app. right. by left. Qed.

Lemma In_doorCleanup url r : isObjectURL url = true -> In url (doorCleanup (Some url) r).
Proof.
  intros H. cbn. unfold isObjectURL in H. rewrite H, (isObjectURL_truthy url H). cbn.
  apply in_or_app. right. by left.
Qed.

Lemma doorCleanup_incl u r url : In url r -> In url (doorCleanup u r).
Proof.
  intros H. destruct u as [v|]; cbn; [|done].
  destruct (Str.truthy v && Str.startsWith v "blob:"); [apply in_or_app; by left|done].
Qed.

Lemma doorCleanup_only d r url :
  In url (doorCleanup d r) ->
  In url r \/ (d = Some url /\ Str.startsWith url "blob:" = true).
Proof.
  destruct d as [v|]; cbn; [|by left].
  destruct (Str.truthy v) eqn:Ht, (Str.startsWith v "blob:") eqn:Hb; cbn; try by left.
  intros [H|[<-|[]]]%in_app_or; [by left|by right].
Qed.

Lemma sceneCleanup_only d r url :
  In url (sceneCleanup d r) -> In url r \/ d = Some url.
Proof.
  destruct d as [v|]; cbn; [|by left].
  destruct (Str.truthy v); [|by left].
  intros [H|[<-|[]]]%in_app_or; [by left|by right].
Qed.

Lemma rerender_onlyObjectURLs s d p :
  objectURLOrNull (sceneDep p) -> onlyObjectURLs (revoked p) ->
  onlyObjectURLs (revoked (rerender s d p)).
Proof.
  intros Hs Hr url. unfold rerender. cbn.
  destruct (decide (s = sceneDep p)), (decide (d = doorDep p)); intros H.
  - by apply Hr.
  - apply doorCleanup_only in H as [H|[_ H]]; [by apply Hr|done].
  - apply sceneCleanup_only in H as [H|H]; [by apply Hr|]. by rewrite H in Hs.
  - apply doorCleanup_only in H as [H|[_ H]]; [|done].
    apply sceneCleanup_only in H as [H|H]; [by apply Hr|]. by rewrite H in Hs.
Qed.

Lemma renders_onlyObjectURLs rs p :
  Forall (fun r => objectURLOrNull r.1) rs ->
  objectURLOrNull (sceneDep p) -> onlyObjectURLs (revoked p) ->
  objectURLOrNull (sceneDep (renders rs p)) /\
  onlyObjectURLs (revoked (renders rs p)).
Proof.
  intros Hrs. revert p. induction Hrs as [|[s d] rs Hs _ IH]; intros p Hp Hr; [done|].
  cbn. apply IH; [exact Hs|]. by apply rerender_onlyObjectURLs.
Qed.

Lemma unmount_onlyObjectURLs p :
  objectURLOrNull (sceneDep p) -> onlyObjectURLs (revoked p) ->
  onlyObjectURLs (unmount p).
Proof.
  intros Hs Hr url H. unfold unmount in H.
  apply doorCleanup_only in H as [H|[_ H]]; [|done].
  apply sceneCleanup_only in H as [H|H]; [by apply Hr|]. by rewrite H in Hs.
Qed.

(** Among committed renders: when a render brings a different scene URL or
    a different door URL, the object URL of the previous render is given
    to [URL.revokeObjectURL], and on unmount both are; the door cleanup
    revokes nothing but a URL that starts with [blob:], so over the whole
    life of the component no static asset path is ever revoked. *)
Theorem objectURL_released :
  (forall p sceneImageUrl doorImageUrl url,
      sceneDep p = Some url -> isObjectURL url = true -> sceneImageUrl <> Some url ->
      In url (revoked (rerender sceneImageUrl doorImageUrl p))) /\
  (forall p sceneImageUrl doorImageUrl url,
      doorDep p = Some url -> isObjectURL url = true -> doorImageUrl <> Some url ->
      In url (revoked (rerender sceneImageUrl doorImageUrl p))) /\
  (forall p url,
      sceneDep p = Some url \/ doorDep p = Some url -> isObjectURL url = true ->
      In url (unmount p)) /\
  (forall doorImageUrl revoked url,
      In url (doorCleanup doorImageUrl revoked) -> ~ In url revoked ->
      doorImageUrl = Some url /\ Str.startsWith url "blob:" = true) /\
  (forall sceneImageUrl doorImageUrl rs path,
      objectURLOrNull sceneImageUrl -> Forall (fun r => objectURLOrNull r.1) rs ->
      In path staticAssetPaths ->
      ~ In path (unmount (renders rs (mount sceneImageUrl doorImageUrl)))).
Proof.
  repeat split.
  - intros p s d url Hp Hu Hne. unfold rerender. cbn.
    destruct (decide (s = sceneDep p)) as [->|_]; [by rewrite Hp in Hne|].
    assert (In url (sceneCleanup (sceneDep p) (revoked p))) as H.
    { rewrite Hp. by apply In_sceneCleanup, isObjectURL_truthy. }
    destruct (decide (d = doorDep p)); [done|by apply doorCleanup_incl].
  - intros p s d url Hp Hu Hne. unfold rerender. cbn.
    destruct (decide (d = doorDep p)) as [->|_]; [by rewrite Hp in Hne|].
    rewrite Hp. by apply In_doorCleanup.
  - intros p url [Hp|Hp] Hu; unfold unmount; rewrite Hp.
    + by apply doorCleanup_incl, In_sceneCleanup, isObjectURL_truthy.
    + by apply In_doorCleanup.
  - apply doorCleanup_only in H as [H|[H _]]; done.
  - apply doorCleanup_only in H as [H|[_ H]]; done.
  - intros s d rs path Hs Hrs Hpath Hin.
    destruct (renders_onlyObjectURLs rs (mount s d) Hrs Hs) as [H1 H2]; [by intros ? []|].
    pose proof (unmount_onlyObjectURLs _ H1 H2 path Hin) as Hb.
    revert Hb. clear -Hpath.
    repeat (destruct Hpath as [<-|Hpath]; [by cbv|]). destruct Hpath.
Qed.

End Cleanups.

Lemma objectURL_released_witness :
  let p := Effects.mount (Some "blob:http://localhost/scene-1")
             (Some "blob:http://localhost/door-1") in
  In "blob:http://localhost/scene-1"
    (Effects.revoked
       (Effects.rerender (Some "blob:http://localhost/scene-2")
          (Some "/assets/door-2.jpg") p)) /\
  In "blob:http://localhost/door-1"
    (Effects.revoked
       (Effects.rerender (Some "blob:http://localhost/scene-2")
          (Some "/assets/door-2.jpg") p)) /\
  In "blob:http://localhost/door-1" (Effects.unmount p) /\
  ~ In "/assets/door-2.jpg"
      (Effects.unmount
         (Effects.renders [(Some "blob:http://localhost/scene-2",
                            Some "/assets/door-2.jpg")] p)).
Proof.
  cbv zeta. repeat apply conj.
  - apply (proj1 objectURL_released); [reflexivity|reflexivity|discriminate].
  - apply (proj1 (proj2 objectURL_released)); [reflexivity|reflexivity|discriminate].
  - apply (proj1 (proj2 (proj2 objectURL_released))); [right; reflexivity|reflexivity].
  - apply (proj2 (proj2 (proj2 (proj2 objectURL_released)))).
    + reflexivity.
    + repeat constructor.
    + right. left. reflexivity.
Defined.

(** ** Object URLs of renders that are not committed *)

Lemma rerender_not_revoked url s d p :
  s <> Some url -> d <> Some url ->
  Effects.sceneDep p <> Some url -> Effects.doorDep p <> Some url ->
  ~ In url (Effects.revoked p) ->
  ~ In url (Effects.revoked (Effects.rerender s d p)).
Proof.
  intros Hs Hd Hps Hpd Hr. unfold Effects.rerender. cbn [Effects.revoked].
  destruct (decide (s = Effects.sceneDep p)), (decide (d = Effects.doorDep p)); intros H.
  - done.
  - apply doorCleanup_only in H as [H|[H _]]; done.
  - apply sceneCleanup_only in H as [H|H]; done.
  - apply doorCleanup_only in H as [H|[H _]]; [|done].
    apply sceneCleanup_only in H as [H|H]; done.
Qed.

Lemma lifetime_not_revoked url rs l :
  Forall (notInstalled url) rs ->
  Effects.sceneDep (page l) <> Some url -> Effects.doorDep (page l) <> Some url ->
  ~ In url (Effects.revoked (page l)) ->
  ~ In url (revokedAtEnd (lifetime rs l)).
Proof.
  intros Hrs. revert l. induction Hrs as [|r rs Hr _ IH]; intros l Hs Hd Hv.
  - unfold revokedAtEnd, Effects.unmount. cbn. intros H.
    apply doorCleanup_only in H as [H|[H _]]; [|done].
    apply sceneCleanup_only in H as [H|H]; done.
  - cbn [lifetime foldl]. apply IH; unfold afterRender; cbn [page].
    + destruct (committed r) eqn:Hc; [|done]. by destruct (Hr Hc).
    + destruct (committed r) eqn:Hc; [|done]. by destruct (Hr Hc).
    + destruct (committed r) eqn:Hc; [|done]. destruct (Hr Hc).
      by apply rerender_not_revoked.
Qed.

Lemma lifetime_created rs l r :
  In r rs -> forall url, sceneUrl r = Some url -> In url (created (lifetime rs l)).
Proof.
  intros Hr url Hu. revert l. induction rs as [|r' rs IH]; intros l; [done|].
  cbn [lifetime foldl].
  assert (forall rs l, In url (created l) -> In url (created (lifetime rs l))) as Hmono.
  { clear. induction rs as [|r rs IH]; intros l H; [done|].
    cbn [lifetime foldl]. apply IH. unfold afterRender. cbn.
    destruct (sceneUrl r); [apply in_or_app; by left|done]. }
  destruct Hr as [->|Hr]; [|by apply IH].
  apply Hmono. unfold afterRender. cbn. rewrite Hu. apply in_or_app. right. by left.
Qed.

(** The URL made by a render that React throws away is never revoked, as
    long as no committed render has the same URL. *)
Lemma discarded_url_never_revoked s0 d0 rs r url :
  In r rs -> committed r = false -> sceneUrl r = Some url ->
  s0 <> Some url -> d0 <> Some url -> Forall (notInstalled url) rs ->
  In url (created (lifetime rs (born s0 d0))) /\
  ~ In url (revokedAtEnd (lifetime rs (born s0 d0))).
Proof.
  intros Hr Hc Hu Hs Hd Hrs. split.
  - by eapply lifetime_created.
  - apply lifetime_not_revoked; [done|done|done|by intros []].
Qed.

(** C6 fails on a render that is not committed: the component mounts with
    the scene URL scene-1, runs its body once more without committing
    (scene-2), renders and commits (scene-3) and unmounts.  Three object
    URLs were made; scene-1 and scene-3 are revoked, scene-2 never is.
    The static door path is not revoked, as the claim says. *)
Theorem discarded_render_leaks :
  created Scenario.life
  = ["blob:http://localhost/scene-1"; "blob:http://localhost/scene-2";
     "blob:http://localhost/scene-3"] /\
  revokedAtEnd Scenario.life
  = ["blob:http://localhost/scene-1"; "blob:http://localhost/scene-3"] /\
  ~ In "blob:http://localhost/scene-2" (revokedAtEnd Scenario.life).
Proof.
  split; [reflexivity|]. split; [reflexivity|].
  intros H. vm_compute in H. destruct H as [H|[H|[]]]; discriminate H.
Qed.

(** ** The touch drop *)

(** An 800 by 600 photo fills a 400 by 300 container; a 800 by 600 photo in
    a 400 by 400 container is 400 by 300, 50 pixels down. *)
Example renderedSize_same_ratio :
  Touch.renderedSize Sample.loadedImg Sample.container = (400%float, 300%float).
Proof. reflexivity. Qed.

Example dropOnImage_letterboxed :
  let square := {| Touch.left := 10%float; Touch.top := 20%float;
                   Touch.width := 400%float; Touch.height := 400%float |} in
  Touch.renderedSize Sample.loadedImg square = (400%float, 300%float) /\
  Touch.dropOnImage {| Touch.clientX := 110%float; Touch.clientY := 220%float |}
    square Sample.loadedImg
  = Some ({| Touch.x := 100%float; Touch.y := 200%float |},
          {| Touch.xPercent := 25%float; Touch.yPercent := 50%float |}) /\
  Touch.dropOnImage {| Touch.clientX := 110%float; Touch.clientY := 50%float |}
    square Sample.loadedImg = None /\
  Touch.dropOnImage {| Touch.clientX := 110%float; Touch.clientY := 380%float |}
    square Sample.loadedImg = None.
Proof. repeat split. Qed.

(** The drop in the middle of a loaded image is forwarded as 50%, 50%. *)
Example handleTouchEnd_loaded :
  requests (handleTouchEnd Sample.touch (Some Sample.container)
              (Some Sample.loadedImg) Sample.dragging).1
  = [{| objectImage := doorFile Sample.door Sample.doorBlob;
        objectDescription := "Classic Oak Panel";
        environmentImage := Sample.scene;
        environmentDescription := "room.png";
        dropPosition := Sample.middle |}].
Proof. reflexivity. Qed.

(** C1 fails on a scene image whose natural size reads 0 by 0 (not loaded,
    or broken): the aspect ratio is 0/0, the rendered width and [imageX]
    are NaN, every comparison of the guard is false, and the drop is
    forwarded with an [xPercent] that is NaN, not a number in [0, 100]. *)
Theorem handleTouchEnd_unloaded_image :
  let w' := (handleTouchEnd Sample.touch (Some Sample.container)
               (Some Sample.unloadedImg) Sample.dragging).1 in
  Num.isNaN (Touch.renderedSize Sample.unloadedImg Sample.container).1 = true /\
  (exists req,
      requests w' = [req] /\
      Num.isNaN (Touch.xPercent (dropPosition req)) = true /\
      Num.isPercentage (Touch.xPercent (dropPosition req)) = false /\
      Touch.yPercent (dropPosition req) = 50%float) /\
  isLoading (app w') = true.
Proof.
  split; [reflexivity|]. split; [|reflexivity].
  eexists. split; [vm_compute; reflexivity|]. repeat split.
Qed.

(** ** The halves of the asynchronous handlers make the whole *)

Lemma handleDoorDrop_halves outcome now position relativePosition w :
  handleDoorDrop outcome now position relativePosition w
  = (pending ← handleDoorDropStart position relativePosition;
     if pending : bool then handleDoorDropResume outcome now else mret tt) w.
Proof.
  run.
  destruct (doorImageFile (app w)), (sceneImage (app w)), (selectedDoor (app w));
    reflexivity.
Qed.

Lemma handleSelectPredefinedDoor_halves outcome door w :
  handleSelectPredefinedDoor outcome door w
  = (handleSelectPredefinedDoorStart;;
     handleSelectPredefinedDoorResume outcome door) w.
Proof. reflexivity. Qed.

(** * Further properties *)

(** Rewrite with the equations the case analysis left. *)
Ltac equations :=
  repeat match goal with
    | E : negb _ = false |- _ => apply negb_false_iff in E
    | E : negb _ = true |- _ => apply negb_true_iff in E
    end;
  repeat match goal with
    | E : ?x = _ |- context [?x] => rewrite E
    end.

Lemma Sample_ready_reachable : reachable Sample.ready.
Proof.
  change Sample.ready
    with (handle (SceneFileSelect Sample.scene)
            (handle (DoorFetched (Responded true (Web.Normal Sample.doorBlob)) Sample.door)
               initialWorld).1).1.
  apply reachable_step; [|done].
  apply reachable_step; [apply reachable_initial|]. left. reflexivity.
Qed.

Lemma Scenario_failed_reachable : reachable Scenario.failed.
Proof. repeat (apply reachable_step; [|done]). apply Sample_ready_reachable. Qed.

Lemma Scenario_hovering_reachable : reachable Scenario.hovering.
Proof. repeat (apply reachable_step; [|done]). apply Sample_ready_reachable. Qed.

(** ** [handleDoorImageUpload] *)

(** X1: an upload stores the file and a door made of the file's name and the
    URL that [URL.createObjectURL] returned, clears the error and closes the
    modal; if [URL.createObjectURL] throws, the error is set and the
    selection, the file and the modal stay as they were.  The scene image,
    [isLoading] and the requests are untouched either way. *)
Theorem handleDoorImageUpload_outcome (url : Web.Completion string) (now : Z)
    (file : Web.File) (w : World) :
  let w' := (handleDoorImageUpload url now file w).1 in
  match url with
  | Web.Normal imageUrl =>
      selectedDoor (app w') = Some {| Types.id := now; Types.name := Web.name file;
                                      Types.imageUrl := imageUrl |} /\
      doorImageFile (app w') = Some file /\
      isAddModalOpen (app w') = false /\ error (app w') = None /\
      objectURLs w' = (objectURLs w ++ [(file, imageUrl)])%list
  | Web.Throw err =>
      selectedDoor (app w') = selectedDoor (app w) /\
      doorImageFile (app w') = doorImageFile (app w) /\
      isAddModalOpen (app w') = isAddModalOpen (app w) /\
      error (app w') = Some ("Could not load the door image. Details: " ++ errorMessage err) /\
      objectURLs w' = objectURLs w
  end /\
  sceneImage (app w') = sceneImage (app w) /\ isLoading (app w') = isLoading (app w) /\
  requests w' = requests w.
Proof. destruct url; run; cbn; repeat split. Qed.

(** ** Invariants *)

Lemma is_Some_None_False {A} : is_Some (@None A) -> False.
Proof. by intros [? [=]]. Qed.

Lemma handle_doorPaired e w : doorPaired (app w) -> doorPaired (app (handle e w).1).
Proof.
  unfold doorPaired.
  destruct e; inputs; run; cases; cbn; equations; try done.
  all: intros _; split; intros _; by eexists.
Qed.

(** X2: in every reachable state a door is selected exactly when a door
    file is held, so the two are never out of step. *)
Theorem door_and_file_paired (w : World) :
  reachable w ->
  (is_Some (selectedDoor (app w)) <-> is_Some (doorImageFile (app w))).
Proof.
  induction 1 as [|e w _ IH _]; [by split; intros ?%is_Some_None_False|].
  by apply handle_doorPaired.
Qed.

Lemma door_and_file_paired_witness :
  is_Some (selectedDoor (app Sample.ready)) <-> is_Some (doorImageFile (app Sample.ready)).
Proof. apply (door_and_file_paired Sample.ready). apply Sample_ready_reachable. Defined.

Lemma handle_touchConsistent e w : touchConsistent (app w) -> touchConsistent (app (handle e w).1).
Proof.
  unfold touchConsistent.
  destruct e; inputs; run; cases; cbn; equations; try done.
  all: intros (H1 & H2 & H3).
  all: repeat split; try done; try (by intros ?%is_Some_None_False); try (intros _; by eexists).
  all: tauto.
Qed.

(** X3: in every reachable state the ghost position is set exactly while a
    touch drag is active, the orb position exactly while the finger hovers
    over the drop zone, and there is no hovering without a drag. *)
Theorem touch_state_consistent (w : World) :
  reachable w ->
  (isTouchDragging (app w) = true <-> is_Some (touchGhostPosition (app w))) /\
  (isHoveringDropZone (app w) = true <-> is_Some (touchOrbPosition (app w))) /\
  (isTouchDragging (app w) = false -> isHoveringDropZone (app w) = false).
Proof.
  induction 1 as [|e w _ IH _].
  - cbn. repeat split; try done; by intros ?%is_Some_None_False.
  - by apply handle_touchConsistent.
Qed.

Lemma touch_state_consistent_witness :
  touchOrbPosition (app Scenario.hovering)
  = Some {| Touch.x := 200%float; Touch.y := 150%float |} /\
  isHoveringDropZone (app Scenario.hovering) = true /\
  isTouchDragging (app Scenario.hovering) = true.
Proof.
  destruct (touch_state_consistent Scenario.hovering Scenario_hovering_reachable)
    as (H1 & H2 & H3).
  split; [reflexivity|]. split.
  - apply H2. eexists. reflexivity.
  - apply H1. eexists. reflexivity.
Defined.

Lemma append_nonempty c s t : (String c s ++ t)%string <> EmptyString.
Proof. change (String c (s ++ t) <> EmptyString). discriminate. Qed.

Lemma handle_noEmptyError e w : noEmptyError (app w) -> noEmptyError (app (handle e w).1).
Proof.
  unfold noEmptyError.
  destruct e; inputs; run; cases; cbn; equations; try done.
  all: intros _ [= H]; by apply append_nonempty in H.
Qed.

Lemma reachable_noEmptyError w : reachable w -> noEmptyError (app w).
Proof.
  induction 1 as [|e w _ IH _]; [done|by apply handle_noEmptyError].
Qed.

(** X4: in every reachable state the error view is on screen exactly when
    an error is set, with that very message, and the message is never
    empty. *)
Theorem error_displayed w msg :
  reachable w ->
  (error (app w) = Some msg <-> renderContent (app w) = ErrorView msg) /\
  (error (app w) = Some msg -> msg <> EmptyString).
Proof.
  intros Hw. pose proof (reachable_noEmptyError w Hw) as Hn. unfold noEmptyError in Hn.
  unfold renderContent.
  destruct (error (app w)) as [[|c m]|]; [done| |].
  - split; [split; by intros [= <-]|by intros [= <-]].
  - split; [|done]. split; [done|]. repeat case_match; done.
Qed.

Lemma error_displayed_witness :
  renderContent (app Scenario.failed)
  = ErrorView "Failed to generate the image. quota exceeded".
Proof.
  apply (error_displayed Scenario.failed _ Scenario_failed_reachable).
  reflexivity.
Defined.

(** ** Touch drag and drop *)

(** X5: without a selected door a touchstart does nothing, and while no
    touch drag is active touchmove and touchend do nothing: the state and
    the logs are returned as they were. *)
Theorem touch_inactive (touch : Touch.TouchPoint) (dropZone : option Touch.DOMRect)
    (sceneImg : option Touch.HTMLImageElement) (w : World) :
  (selectedDoor (app w) = None -> handleTouchStart touch w = (w, Web.Normal tt)) /\
  (isTouchDragging (app w) = false ->
   handleTouchMove touch dropZone w = (w, Web.Normal tt) /\
   handleTouchEnd touch dropZone sceneImg w = (w, Web.Normal tt)).
Proof.
  split; [intros H|intros H; split]; run; by rewrite H.
Qed.

Lemma touch_inactive_witness :
  handleTouchStart Sample.touch initialWorld = (initialWorld, Web.Normal tt) /\
  handleTouchMove Sample.touch (Some Sample.container) Sample.ready
  = (Sample.ready, Web.Normal tt) /\
  handleTouchEnd Sample.touch (Some Sample.container) (Some Sample.loadedImg) Sample.ready
  = (Sample.ready, Web.Normal tt).
Proof.
  split.
  - apply (proj1 (touch_inactive Sample.touch None None initialWorld)). reflexivity.
  - apply (proj2 (touch_inactive Sample.touch (Some Sample.container)
                    (Some Sample.loadedImg) Sample.ready)).
    reflexivity.
Defined.

(** X6: a touchend that finds no drop zone, or no scene image element, or
    lands outside the rendered image ends the drag and nothing else: no
    request goes out and every field but the four of the drag is kept. *)
Theorem handleTouchEnd_missed (touch : Touch.TouchPoint) (dropZone : option Touch.DOMRect)
    (sceneImg : option Touch.HTMLImageElement) (w : World) :
  isTouchDragging (app w) = true ->
  dropZone = None \/ sceneImg = None \/
  (exists rect img, dropZone = Some rect /\ sceneImg = Some img /\
                    Touch.dropOnImage touch rect img = None) ->
  (handleTouchEnd touch dropZone sceneImg w).1
  = {| app := setTouchOrbPosition None
                (setIsHoveringDropZone false
                   (setTouchGhostPosition None (setIsTouchDragging false (app w))));
       requests := requests w; objectURLs := objectURLs w |}.
Proof.
  intros Hd H. run. rewrite Hd.
  destruct H as [->|[->|(rect & img & -> & -> & ->)]]; [done| |done].
  by destruct dropZone.
Qed.

Lemma handleTouchEnd_missed_witness :
  (handleTouchEnd Sample.touch None (Some Sample.loadedImg) Sample.dragging).1
  = {| app := setTouchOrbPosition None
                (setIsHoveringDropZone false
                   (setTouchGhostPosition None
                      (setIsTouchDragging false (app Sample.dragging))));
       requests := []; objectURLs := [] |}.
Proof.
  apply (handleTouchEnd_missed Sample.touch None (Some Sample.loadedImg) Sample.dragging).
  - reflexivity.
  - left. reflexivity.
Defined.

(** X7: the position at which the orb is drawn while the finger hovers is
    the position that is persisted when the finger is lifted at the same
    point: both are the touch point relative to the drop zone. *)
Theorem orb_position_kept (touch : Touch.TouchPoint) (rect : Touch.DOMRect)
    (img : Touch.HTMLImageElement) (w : World) position relativePosition :
  isTouchDragging (app w) = true ->
  Touch.dropOnImage touch rect img = Some (position, relativePosition) ->
  touchOrbPosition (app (handleTouchMove touch (Some rect) w).1) = Some position /\
  (is_Some (doorImageFile (app w)) -> is_Some (sceneImage (app w)) ->
   is_Some (selectedDoor (app w)) ->
   persistedOrbPosition (app (handleTouchEnd touch (Some rect) (Some img) w).1)
   = Some position).
Proof.
  intros Hd Hdrop.
  assert (position = {| Touch.x := (Touch.clientX touch - Touch.left rect)%float;
                        Touch.y := (Touch.clientY touch - Touch.top rect)%float |}) as Hp.
  { revert Hdrop. unfold Touch.dropOnImage.
    destruct (Touch.renderedSize img rect) as [rw rh].
    case_match; [|done]. by intros [= <- _]. }
  split.
  - run. rewrite Hd. cbn. by rewrite Hp.
  - intros [f Hf] [sc Hsc] [d Hs]. run. rewrite Hd, Hdrop. cbn [negb fst snd app].
    rewrite Hf, Hsc, Hs. by cbn.
Qed.

Lemma orb_position_kept_witness :
  touchOrbPosition (app (handleTouchMove Sample.touch (Some Sample.container)
                           Sample.dragging).1) = Some Sample.centre /\
  persistedOrbPosition (app (handleTouchEnd Sample.touch (Some Sample.container)
                               (Some Sample.loadedImg) Sample.dragging).1)
  = Some Sample.centre.
Proof.
  destruct (orb_position_kept Sample.touch Sample.container Sample.loadedImg
              Sample.dragging Sample.centre Sample.middle eq_refl eq_refl) as [H1 H2].
  split; [exact H1|]. apply H2; eexists; reflexivity.
Defined.

(** ** A generation from start to end *)

Lemma renderContent_error s c m :
  error s = Some (String c m) -> renderContent s = ErrorView (String c m).
Proof. unfold renderContent. by intros ->. Qed.

(** X8: once [handleDoorDrop] has started a generation the main screen is
    shown with the drop zone and the debug button off and the orb at the
    drop position; when it has finished with a converted image the main
    screen is shown with the drop zone on again and no orb; when the call
    or the conversion has failed the error screen is shown, which has no
    drop zone. *)
Theorem dropZone_gated (outcome : Web.Completion CompositeResult) (now : Z)
    (position : Touch.Point) (relativePosition : Touch.RelativePosition) (w : World) :
  is_Some (doorImageFile (app w)) -> is_Some (sceneImage (app w)) ->
  is_Some (selectedDoor (app w)) ->
  let started := app (handleDoorDropStart position relativePosition w).1 in
  let finished := app (handleDoorDrop outcome now position relativePosition w).1 in
  (exists props,
      sceneUploader started = Some props /\
      isDropZone props = false /\ showDebugButton props = false /\
      persistedOrb props = Some position) /\
  match outcome with
  | Web.Normal r =>
      match dataURLtoFile (finalImageUrl r) ("generated-scene-" ++ pretty now ++ ".jpeg") with
      | Web.Normal _ =>
          exists props,
            sceneUploader finished = Some props /\
            isDropZone props = true /\ persistedOrb props = None
      | Web.Throw err =>
          sceneUploader finished = None /\
          renderContent finished
          = ErrorView ("Failed to generate the image. " ++ errorMessage err)
      end
  | Web.Throw err =>
      sceneUploader finished = None /\
      renderContent finished
      = ErrorView ("Failed to generate the image. " ++ errorMessage err)
  end.
Proof.
  intros [f Hf] [sc Hsc] [d Hd]. run. rewrite Hf, Hsc, Hd.
  cbn [app fst snd]. split.
  - unfold sceneUploader, renderContent. cbn. rewrite Hsc, Hd. cbn.
    eexists. split; [reflexivity|]. cbn.
    split; [first [done | by rewrite andb_false_r]|]. split; [|done].
    destruct (debugImageUrl (app w)); [|done]. by rewrite andb_false_r.
  - assert (forall s msg,
              error s = Some ("Failed to generate the image. " ++ msg) ->
              sceneUploader s = None /\
              renderContent s = ErrorView ("Failed to generate the image. " ++ msg)) as Herr.
    { intros s msg Hs. unfold sceneUploader.
      change ("Failed to generate the image. " ++ msg)%string
        with (String "F" ("ailed to generate the image. " ++ msg)) in *.
      by rewrite (renderContent_error _ _ _ Hs). }
    destruct outcome as [r|e]; cbn [app fst snd]; [|by apply Herr].
    destruct (dataURLtoFile _ _) as [newScene|err]; cbn [app fst snd]; [|by apply Herr].
    unfold sceneUploader, renderContent. cbn. rewrite Hd. cbn.
    eexists. split; [reflexivity|]. cbn. split; done.
Qed.

Lemma dropZone_gated_witness :
  (isDropZone <$> sceneUploader
     (app (handleDoorDropStart Sample.centre Sample.middle Sample.ready).1)) = Some false /\
  (isDropZone <$> sceneUploader
     (app (handleDoorDrop (Web.Normal Sample.goodResult) 0
             Sample.centre Sample.middle Sample.ready).1)) = Some true /\
  sceneUploader (app (handleDoorDrop (Web.Normal Sample.badResult) 0
                        Sample.centre Sample.middle Sample.ready).1) = None.
Proof.
  pose proof (dropZone_gated (Web.Normal Sample.goodResult) 0 Sample.centre Sample.middle
                Sample.ready (ex_intro _ _ eq_refl) (ex_intro _ _ eq_refl)
                (ex_intro _ _ eq_refl)) as [(p & Hp & Hz & _) Hgood].
  pose proof (dropZone_gated (Web.Normal Sample.badResult) 0 Sample.centre Sample.middle
                Sample.ready (ex_intro _ _ eq_refl) (ex_intro _ _ eq_refl)
                (ex_intro _ _ eq_refl)) as [_ Hbad].
  split; [by rewrite Hp; cbn; rewrite Hz|]. split.
  - reflexivity.
  - exact (proj1 Hbad).
Defined.

(** X9: when the service answers, its debug image and prompt are stored
    whether or not the returned image can then be converted; when the call
    throws, the debug payload of the previous generation stays. *)
Theorem debug_payload (outcome : Web.Completion CompositeResult) (now : Z)
    (position : Touch.Point) (relativePosition : Touch.RelativePosition) (w : World) :
  is_Some (doorImageFile (app w)) -> is_Some (sceneImage (app w)) ->
  is_Some (selectedDoor (app w)) ->
  let s' := app (handleDoorDrop outcome now position relativePosition w).1 in
  match outcome with
  | Web.Normal r =>
      debugImageUrl s' = resultDebugImageUrl r /\ debugPrompt s' = finalPrompt r
  | Web.Throw _ =>
      debugImageUrl s' = debugImageUrl (app w) /\ debugPrompt s' = debugPrompt (app w)
  end.
Proof.
  intros [f Hf] [sc Hsc] [d Hd]. run. rewrite Hf, Hsc, Hd.
  destruct outcome as [r|e]; cbn [app fst snd]; [|done].
  destruct (dataURLtoFile _ _); done.
Qed.

Lemma debug_payload_witness :
  debugPrompt (app (handleDoorDrop (Web.Normal Sample.goodResult) 0
                      Sample.centre Sample.middle Sample.ready).1)
  = Some "place the door".
Proof.
  apply (debug_payload (Web.Normal Sample.goodResult) 0 Sample.centre Sample.middle
           Sample.ready); eexists; reflexivity.
Defined.

(** X10: after a successful generation the next drop sends the generated
    file as the scene, described by its generated name
    [generated-scene-<now>.jpeg], with the same door file and door name. *)
Theorem successive_drops (r : CompositeResult) (outcome2 : Web.Completion CompositeResult)
    (now now2 : Z) (p1 p2 : Touch.Point) (r1 r2 : Touch.RelativePosition)
    (w : World) f sc d newScene :
  doorImageFile (app w) = Some f -> sceneImage (app w) = Some sc ->
  selectedDoor (app w) = Some d ->
  dataURLtoFile (finalImageUrl r) ("generated-scene-" ++ pretty now ++ ".jpeg")
  = Web.Normal newScene ->
  let w1 := (handleDoorDrop (Web.Normal r) now p1 r1 w).1 in
  let w2 := (handleDoorDrop outcome2 now2 p2 r2 w1).1 in
  Web.name newScene = "generated-scene-" ++ pretty now ++ ".jpeg" /\
  requests w2 = (requests w ++
    [ {| objectImage := f; objectDescription := Types.name d;
         environmentImage := sc; environmentDescription := Web.name sc;
         dropPosition := r1 |};
      {| objectImage := f; objectDescription := Types.name d;
         environmentImage := newScene;
         environmentDescription := "generated-scene-" ++ pretty now ++ ".jpeg";
         dropPosition := r2 |} ])%list.
Proof.
  intros Hf Hsc Hd Hconv.
  assert (Web.name newScene = "generated-scene-" ++ pretty now ++ ".jpeg") as Hname.
  { revert Hconv. unfold dataURLtoFile. repeat case_match; try done. by intros [= <-]. }
  split; [done|].
  run. rewrite Hf, Hsc, Hd. cbn [app fst snd requests]. rewrite Hconv.
  cbn [app fst snd requests]. cbn. rewrite Hf, Hd.
  destruct outcome2 as [r'|e]; cbn [app fst snd requests].
  - rewrite <- app_assoc, Hname.
    destruct (dataURLtoFile (finalImageUrl r') _); done.
  - rewrite <- app_assoc, Hname. done.
Qed.

Lemma successive_drops_witness :
  length (requests (handleDoorDrop (Web.Normal Sample.badResult) 2 Sample.centre
                      Sample.middle
                      (handleDoorDrop (Web.Normal Sample.goodResult) 1 Sample.centre
                         Sample.middle Sample.ready).1).1) = 2%nat.
Proof.
  destruct (successive_drops Sample.goodResult (Web.Normal Sample.badResult) 1 2
              Sample.centre Sample.centre Sample.middle Sample.middle Sample.ready
              _ _ _ _ eq_refl eq_refl eq_refl eq_refl) as [_ H].
  rewrite H. reflexivity.
Defined.

(** ** Screens *)

(** X11: while a door is being fetched with no scene image the loading
    screen is shown; a fetched door leads to the scene upload screen, or to
    the main screen if a scene image is already there; a failed fetch
    leads to the error screen with the reason. *)
Theorem selecting_door_screens (outcome : FetchOutcome) (door : Types.Door) (w : World) :
  let started := app (handleSelectPredefinedDoorStart w).1 in
  let s' := app (handleSelectPredefinedDoor outcome door w).1 in
  (sceneImage (app w) = None -> renderContent started = LoadingDoorView) /\
  match outcome with
  | Responded true (Web.Normal blob) =>
      match sceneImage (app w) with
      | None => renderContent s' = SceneUploadView door
      | Some _ => renderContent s' = MainView door None
      end
  | Responded false _ =>
      renderContent s' = ErrorView ("Could not load the selected door. Details: "
                                    ++ "Failed to load door image: " ++ Types.name door)
  | FetchRejected err | Responded true (Web.Throw err) =>
      renderContent s' = ErrorView ("Could not load the selected door. Details: "
                                    ++ errorMessage err)
  end.
Proof.
  split.
  - intros H. run. unfold renderContent. cbn. by rewrite H.
  - run. unfold renderContent.
    destruct outcome as [err|[|] [blob|err]]; cbn; try done.
    by destruct (sceneImage (app w)).
Qed.

Lemma selecting_door_screens_witness :
  renderContent (app (handleSelectPredefinedDoorStart initialWorld).1) = LoadingDoorView.
Proof.
  apply (proj1 (selecting_door_screens (FetchRejected Web.NotAnError) Sample.door
                  initialWorld)).
  reflexivity.
Defined.

(** X12: "Change Door" drops the door and its file and keeps the scene
    image; "Change Space" drops the scene image and keeps the door and its
    file; both clear the orb and the debug payload and leave the error and
    [isLoading] alone.  With no error and nothing loading the first leads
    to the door selection and the second to the scene upload screen. *)
Theorem change_buttons (w : World) :
  let afterDoor := app (handleChangeDoor w).1 in
  let afterScene := app (handleChangeScene w).1 in
  (selectedDoor afterDoor = None /\ doorImageFile afterDoor = None /\
   sceneImage afterDoor = sceneImage (app w) /\ error afterDoor = error (app w) /\
   isLoading afterDoor = isLoading (app w)) /\
  (sceneImage afterScene = None /\ selectedDoor afterScene = selectedDoor (app w) /\
   doorImageFile afterScene = doorImageFile (app w) /\ error afterScene = error (app w) /\
   isLoading afterScene = isLoading (app w)) /\
  (error (app w) = None -> isLoading (app w) = false ->
   renderContent afterDoor = DoorSelectionView /\
   forall door, selectedDoor (app w) = Some door ->
                renderContent afterScene = SceneUploadView door) /\
  persistedOrbPosition afterDoor = None /\ debugImageUrl afterDoor = None /\
  debugPrompt afterDoor = None /\
  persistedOrbPosition afterScene = None /\ debugImageUrl afterScene = None /\
  debugPrompt afterScene = None.
Proof.
  run. cbn. repeat split.
  - unfold renderContent. cbn. rewrite H, H0. done.
  - intros door Hd. unfold renderContent. cbn. rewrite H, H0, Hd. done.
Qed.

Lemma change_buttons_witness :
  renderContent (app (handleChangeDoor Sample.ready).1) = DoorSelectionView /\
  renderContent (app (handleChangeScene Sample.ready).1) = SceneUploadView Sample.door.
Proof.
  destruct (change_buttons Sample.ready) as (_ & _ & H & _).
  destruct (H eq_refl eq_refl) as [H1 H2].
  split; [exact H1|]. apply H2. reflexivity.
Defined.

(** X13: only a scene upload, a reset, "Change Space" and the end of a
    generation can change the scene image; only a drop (by mouse or by
    touch) can send a request, and it sends at most one; no event removes
    a request from the log. *)
Theorem handle_frame (e : Event) (w : World) :
  let w' := (handle e w).1 in
  (if replacesScene e then True else sceneImage (app w') = sceneImage (app w)) /\
  (if sendsRequest e
   then exists l, requests w' = (requests w ++ l)%list /\ (length l <= 1)%nat
   else requests w' = requests w).
Proof.
  split.
  - destruct e; cbn [replacesScene]; try done; inputs; run; cases; cbn; done.
  - destruct e; cbn [sendsRequest]; inputs; run; cases; cbn [requests]; try done.
    all: first [ exists []; rewrite app_nil_r; split; [done|cbn; lia]
               | eexists; split; [done|cbn; lia] ].
Qed.

(** ** The loading messages *)

Lemma loadingTick_index w :
  loadingMessageIndex (app (loadingTick w).1) = Z.rem (loadingMessageIndex (app w) + 1) 6.
Proof. reflexivity. Qed.

(** X14: [n] ticks move the loading message index forward by [n] modulo 6,
    so six ticks bring back the same message. *)
Theorem loadingTick_cycles (n : nat) (w : World) :
  validIndex (app w) ->
  loadingMessageIndex (app (ticks n w)) = (loadingMessageIndex (app w) + Z.of_nat n) mod 6 /\
  loadingMessageIndex (app (ticks 6 w)) = loadingMessageIndex (app w).
Proof.
  intros Hv. unfold validIndex in Hv. cbn in Hv.
  assert (forall n, loadingMessageIndex (app (ticks n w))
                    = (loadingMessageIndex (app w) + Z.of_nat n) mod 6) as H.
  { clear n. induction n as [|n IH].
    - cbn. rewrite Z.add_0_r, Z.mod_small; lia.
    - change (ticks (S n) w) with (loadingTick (ticks n w)).1.
      rewrite loadingTick_index, IH.
      rewrite Z.rem_mod_nonneg; [|apply Z.add_nonneg_nonneg; [apply Z.mod_pos_bound|]; lia|lia].
      rewrite Zplus_mod_idemp_l. f_equal. lia. }
  split; [apply H|]. rewrite H. change (Z.of_nat 6) with 6.
  rewrite <- Zplus_mod_idemp_r. change (6 mod 6) with 0. rewrite Z.add_0_r, Z.mod_small; lia.
Qed.

Lemma loadingTick_cycles_witness :
  loadingMessageIndex (app (ticks 8 Sample.ready)) = 2 /\
  loadingMessageIndex (app (ticks 6 Sample.ready)) = 0.
Proof.
  destruct (loadingTick_cycles 8 Sample.ready) as [H1 H2]; [by cbv|].
  split; [rewrite H1; reflexivity|rewrite H2; reflexivity].
Defined.

(** ** The object URL effects *)

Lemma sceneCleanup_app u r :
  exists l, Effects.sceneCleanup u r = (r ++ l)%list /\ (length l <= 1)%nat /\
            forall x, In x l -> u = Some x.
Proof.
  unfold Effects.sceneCleanup. destruct u as [v|].
  - destruct (Str.truthy v).
    + exists [v]. split; [done|]. split; [cbn; lia|]. by intros ? [<-|[]].
    + exists []. rewrite app_nil_r. split; [done|]. split; [cbn; lia|intros ? []].
  - exists []. rewrite app_nil_r. split; [done|]. split; [cbn; lia|intros ? []].
Qed.

Lemma doorCleanup_app u r :
  exists l, Effects.doorCleanup u r = (r ++ l)%list /\ (length l <= 1)%nat /\
            forall x, In x l -> u = Some x /\ Str.startsWith x "blob:" = true.
Proof.
  unfold Effects.doorCleanup. destruct u as [v|].
  - destruct (Str.truthy v && Str.startsWith v "blob:") eqn:Hb.
    + exists [v]. split; [done|]. split; [cbn; lia|].
      intros ? [<-|[]]. by apply andb_true_iff in Hb as [_ ?].
    + exists []. rewrite app_nil_r. split; [done|]. split; [cbn; lia|intros ? []].
  - exists []. rewrite app_nil_r. split; [done|]. split; [cbn; lia|intros ? []].
Qed.

(** X15: a render revokes nothing but what it replaces: the log grows by
    at most two URLs, each the scene URL or the blob door URL of the
    previous render that the new render no longer has, and by none when
    both URLs are unchanged. *)
Theorem rerender_revokes_replaced (s d : option string) (p : Effects.Page) :
  exists l,
    Effects.revoked (Effects.rerender s d p) = (Effects.revoked p ++ l)%list /\
    (length l <= 2)%nat /\
    (forall u, In u l ->
       (Effects.sceneDep p = Some u /\ s <> Some u) \/
       (Effects.doorDep p = Some u /\ d <> Some u /\ Str.startsWith u "blob:" = true)) /\
    (s = Effects.sceneDep p -> d = Effects.doorDep p -> l = []).
Proof.
  unfold Effects.rerender. cbn [Effects.revoked].
  destruct (decide (s = Effects.sceneDep p)) as [Hs|Hs],
           (decide (d = Effects.doorDep p)) as [Hd|Hd].
  - exists []. rewrite app_nil_r. split; [done|]. split; [cbn; lia|].
    split; [intros ? []|done].
  - destruct (doorCleanup_app (Effects.doorDep p) (Effects.revoked p)) as (l & -> & Hl & Hin).
    exists l. split; [done|]. split; [lia|]. split; [|done].
    intros u [Hu Hb]%Hin. right. split; [done|]. split; [|done]. congruence.
  - destruct (sceneCleanup_app (Effects.sceneDep p) (Effects.revoked p)) as (l & -> & Hl & Hin).
    exists l. split; [done|]. split; [lia|]. split; [|done].
    intros u Hu%Hin. left. split; [done|]. congruence.
  - destruct (sceneCleanup_app (Effects.sceneDep p) (Effects.revoked p)) as (l1 & -> & Hl1 & Hin1).
    destruct (doorCleanup_app (Effects.doorDep p) (Effects.revoked p ++ l1)) as (l2 & -> & Hl2 & Hin2).
    exists (l1 ++ l2)%list. rewrite app_assoc. split; [done|].
    split; [rewrite length_app; lia|]. split; [|done].
    intros u [Hu|Hu]%in_app_or.
    + apply Hin1 in Hu. left. split; [done|]. congruence.
    + apply Hin2 in Hu as [Hu Hb]. right. split; [done|]. split; [|done]. congruence.
Qed.

Lemma rerender_revokes_replaced_witness :
  Effects.revoked (Effects.rerender (Some "blob:http://localhost/scene-1")
                     (Some "blob:http://localhost/door-1") Scenario.page) = [].
Proof.
  destruct (rerender_revokes_replaced (Some "blob:http://localhost/scene-1")
              (Some "blob:http://localhost/door-1") Scenario.page)
    as (l & H & _ & _ & Hnil).
  rewrite H, (Hnil eq_refl eq_refl). reflexivity.
Defined.

(** ** [dataURLtoFile] again *)

Lemma lazyUntilSemicolon_plain s g : Str.lazyUntilSemicolon s = Some g -> plain g.
Proof.
  revert g. induction s as [|c s IH]; intros g; cbn; [done|].
  destruct (Ascii.eqb_spec c ";") as [->|Hc]; [intros [= <-]; by intros ? []|].
  destruct (Str.isLineTerminator c) eqn:Ht; [done|].
  destruct (Str.lazyUntilSemicolon s) as [g'|]; [|done]. cbn. intros [= <-].
  intros x [<-|Hx]; [done|]. by apply (IH g').
Qed.

Lemma lazyUntilSemicolon_app mime rest :
  plain mime -> Str.lazyUntilSemicolon (mime ++ String ";" rest) = Some mime.
Proof.
  induction mime as [|c m IH]; intros Hp.
  - done.
  - change (Str.lazyUntilSemicolon (String c (m ++ String ";" rest)) = Some (String c m)).
    cbn [Str.lazyUntilSemicolon].
    destruct (Hp c (or_introl eq_refl)) as [Hc Ht].
    destruct (Ascii.eqb_spec c ";"); [done|]. rewrite Ht, IH; [done|].
    intros x Hx. apply Hp. by right.
Qed.

Lemma matchMime_plain s g : Str.matchMime s = Some g -> plain g.
Proof.
  induction s as [|c s IH]; cbn; [done|].
  destruct (Ascii.eqb c ":"); [|done].
  destruct (Str.lazyUntilSemicolon s) eqn:E; [|done].
  intros [= <-]. by eapply lazyUntilSemicolon_plain.
Qed.

Lemma atob_bytes data bstr :
  Web.atob data = Some bstr ->
  exists bs, Web.forgivingBase64Decode data = Some bs /\ Forall isByte bs /\
             fillFromEnd bstr (String.length bstr) (replicate (String.length bstr) 0) = bs.
Proof.
  unfold Web.atob. destruct (Web.forgivingBase64Decode data) as [bs|] eqn:E; [|done].
  cbn. intros [= <-]. exists bs. split; [done|].
  pose proof (decode_bytes _ _ E). split; [done|].
  by rewrite fillFromEnd_all, codes_stringOfBytes.
Qed.

Lemma toAsciiLower_facts c :
  (Web.isPrintable c = true -> Web.isPrintable (Web.toAsciiLower c) = true) /\
  Web.toAsciiLower (Web.toAsciiLower c) = Web.toAsciiLower c /\
  (c <> ";"%char -> Web.toAsciiLower c <> ";"%char) /\
  Str.isLineTerminator (Web.toAsciiLower c) = Str.isLineTerminator c.
Proof. destruct c as [[] [] [] [] [] [] [] []]; by vm_compute. Qed.

Lemma normalizeType_chars t c :
  In c (list_ascii_of_string (Web.normalizeType t)) ->
  exists c', In c' (list_ascii_of_string t) /\ Web.isPrintable c' = true /\
             c = Web.toAsciiLower c'.
Proof.
  unfold Web.normalizeType.
  destruct (forallb Web.isPrintable (list_ascii_of_string t)) eqn:Hp; [|done].
  rewrite list_ascii_of_string_of_list_ascii.
  intros (c' & -> & Hc')%list_elem_of_In%list_elem_of_fmap. apply list_elem_of_In in Hc'.
  exists c'. split; [done|]. split; [|done].
  rewrite forallb_forall in Hp. by apply Hp.
Qed.

Lemma normalizeType_shape t :
  lowerPrintable (Web.normalizeType t) /\ (plain t -> plain (Web.normalizeType t)).
Proof.
  split.
  - apply List.Forall_forall. intros c (c' & _ & Hp & ->)%normalizeType_chars.
    destruct (toAsciiLower_facts c') as (H1 & H2 & _). by split; [apply H1|].
  - intros Ht c (c' & Hin & _ & ->)%normalizeType_chars.
    destruct (Ht c' Hin) as [Hs Hl], (toAsciiLower_facts c') as (_ & _ & H3 & H4).
    split; [by apply H3|by rewrite H4].
Qed.

(** X16: whatever [dataURLtoFile] returns has the given name; its type is
    what the File constructor makes of the MIME type captured from the
    header (which is not empty): lower-case printable ASCII, possibly
    empty, with no semicolon or line break in it (parameters such as
    [;base64] are cut off); its bytes lie between 0 and 255 and are the
    decoding of the part between the first two commas. *)
Theorem dataURLtoFile_result (dataurl filename : string) (f : Web.File) :
  dataURLtoFile dataurl filename = Web.Normal f ->
  Web.name f = filename /\
  lowerPrintable (Web.type f) /\ plain (Web.type f) /\
  Forall isByte (Web.bytes f) /\
  exists arr0 arr1 rest mime,
    Str.split "," dataurl = arr0 :: arr1 :: rest /\
    Str.matchMime arr0 = Some mime /\ mime <> EmptyString /\
    Web.type f = Web.normalizeType mime /\
    Web.forgivingBase64Decode arr1 = Some (Web.bytes f).
Proof.
  unfold dataURLtoFile.
  destruct (Str.split "," dataurl) as [|arr0 [|arr1 rest]]; [done|done|].
  destruct (Str.matchMime arr0) as [[|c mime]|] eqn:Hm; [done| |done]. cbn [Str.truthy].
  destruct (Web.atob arr1) as [bstr|] eqn:Ha; [|done].
  destruct (atob_bytes _ _ Ha) as (bs & Hd & Hb & Hfill). rewrite Hfill.
  intros [= <-]. cbn [Web.newFile Web.name Web.type Web.bytes].
  destruct (normalizeType_shape (String c mime)) as [H1 H2].
  split; [done|]. split; [done|]. split; [by eapply H2, matchMime_plain|].
  split; [done|]. by exists arr0, arr1, rest, (String c mime).
Qed.

Lemma dataURLtoFile_result_witness :
  let f := {| Web.bytes := [65; 66; 67]; Web.name := "a.txt"; Web.type := "text/plain" |} in
  dataURLtoFile "data:Text/Plain;charset=utf-8;base64,QUJD" "a.txt" = Web.Normal f /\
  Web.name f = "a.txt" /\ lowerPrintable (Web.type f) /\ plain (Web.type f) /\
  Forall isByte (Web.bytes f).
Proof.
  cbv zeta. split; [reflexivity|].
  destruct (dataURLtoFile_result "data:Text/Plain;charset=utf-8;base64,QUJD" "a.txt"
              _ eq_refl) as (H1 & H2 & H3 & H4 & _).
  split; [exact H1|]. split; [exact H2|]. split; [exact H3|exact H4].
Defined.

Lemma dataURLtoFile_first_two dataurl dataurl' filename arr0 arr1 rest rest' :
  Str.split "," dataurl = arr0 :: arr1 :: rest ->
  Str.split "," dataurl' = arr0 :: arr1 :: rest' ->
  dataURLtoFile dataurl filename = dataURLtoFile dataurl' filename.
Proof. unfold dataURLtoFile. by intros -> ->. Qed.

(** X17: what follows a second comma is ignored: the result, file or
    error, is the same as without it. *)
Theorem dataURLtoFile_ignores_rest (header payload rest filename : string) :
  ~ In ","%char (list_ascii_of_string header) ->
  ~ In ","%char (list_ascii_of_string payload) ->
  dataURLtoFile (header ++ String "," (payload ++ String "," rest)) filename
  = dataURLtoFile (header ++ String "," payload) filename.
Proof.
  intros Hh Hp.
  eapply dataURLtoFile_first_two.
  - rewrite split_app by done. by rewrite split_app by done.
  - rewrite split_app by done. by rewrite split_none by done.
Qed.

Lemma dataURLtoFile_ignores_rest_witness :
  dataURLtoFile "data:image/png;base64,QUJD,tail" "scene.jpeg"
  = dataURLtoFile "data:image/png;base64,QUJD" "scene.jpeg".
Proof.
  apply (dataURLtoFile_ignores_rest "data:image/png;base64" "QUJD" "tail" "scene.jpeg").
  - cbn. intuition discriminate.
  - cbn. intuition discriminate.
Defined.

Lemma list_ascii_app s t :
  list_ascii_of_string (s ++ t) = (list_ascii_of_string s ++ list_ascii_of_string t)%list.
Proof.
  induction s as [|c s IH]; [done|].
  change (list_ascii_of_string (String c (s ++ t)) = (c :: list_ascii_of_string s ++ list_ascii_of_string t)%list).
  cbn. by rewrite IH.
Qed.

Lemma append_assoc (a b c : string) : ((a ++ b) ++ c)%string = (a ++ (b ++ c))%string.
Proof.
  induction a as [|x a IH]; [done|].
  change (String x ((a ++ b) ++ c) = String x (a ++ (b ++ c))). by rewrite IH.
Qed.

Lemma dataURLtoFile_wellformed header payload filename mime bs :
  ~ In ","%char (list_ascii_of_string header) ->
  Str.matchMime header = Some mime -> mime <> EmptyString ->
  Web.forgivingBase64Decode payload = Some bs ->
  dataURLtoFile (header ++ String "," payload) filename
  = Web.Normal {| Web.bytes := bs; Web.name := filename;
                  Web.type := Web.normalizeType mime |}.
Proof.
  intros Hh Hm Hne Hd.
  unfold dataURLtoFile. rewrite split_app by done.
  rewrite split_none by by eapply decode_no_comma.
  rewrite Hm. destruct mime as [|c mime]; [done|]. cbn [Str.truthy].
  unfold Web.atob. rewrite Hd. cbn [fmap option_fmap option_map].
  rewrite fillFromEnd_all, codes_stringOfBytes; [done|by eapply decode_bytes].
Qed.



(** ** The base64 round trip *)

Lemma alphabet_all :
  forallb (fun v => bool_decide (Web.sextet (alphabetChar v) = Some v)
                    && negb (Web.isAsciiWhitespace (alphabetChar v))
                    && negb (Ascii.eqb (alphabetChar v) "="))
          (Z.of_nat <$> seq 0 64) = true.
Proof. vm_compute. reflexivity. Qed.

Lemma alphabetChar_spec v :
  isSextet v ->
  Web.sextet (alphabetChar v) = Some v /\
  Web.isAsciiWhitespace (alphabetChar v) = false /\
  alphabetChar v <> "="%char.
Proof.
  intros Hv. pose proof alphabet_all as H.
  rewrite forallb_forall in H.
  specialize (H v). 
  assert (In v (Z.of_nat <$> seq 0 64)) as Hin.
  { apply list_elem_of_In, list_elem_of_fmap. exists (Z.to_nat v). split; [unfold isSextet in Hv; lia|].
    apply list_elem_of_In, in_seq. unfold isSextet in Hv. lia. }
  apply H in Hin. apply andb_true_iff in Hin as [[H1 H2]%andb_true_iff H3].
  apply bool_decide_eq_true in H1. apply negb_true_iff in H2, H3.
  split; [done|]. split; [done|]. by apply Ascii.eqb_neq.
Qed.

Lemma stripPadding_other c r : c <> "="%char -> Web.stripPadding (c :: r) = c :: r.
Proof.
  intros Hc. destruct c as [[] [] [] [] [] [] [] []]; try done.
Qed.

Lemma stripPadding_one c r : c <> "="%char -> Web.stripPadding ("="%char :: c :: r) = c :: r.
Proof.
  intros Hc. destruct c as [[] [] [] [] [] [] [] []]; try done.
Qed.

Lemma stripPadding_app l t : (2 <= length l)%nat -> Web.stripPadding (l ++ t) = (Web.stripPadding l ++ t)%list.
Proof.
  destruct l as [|c1 [|c2 l]]; cbn [length]; [lia|lia|]. intros _.
  destruct (ascii_dec c1 "=") as [->|H1].
  - destruct (ascii_dec c2 "=") as [->|H2]; [done|].
    cbn [List.app]. by rewrite !stripPadding_one by done.
  - cbn [List.app]. by rewrite !stripPadding_other by done.
Qed.

Lemma three_ind {A} (P : list A -> Prop) :
  P [] -> (forall a, P [a]) -> (forall a b, P [a; b]) ->
  (forall a b c r, P r -> P (a :: b :: c :: r)) ->
  forall l, P l.
Proof.
  intros H0 H1 H2 H3.
  assert (forall n l, (length l <= n)%nat -> P l) as H.
  { induction n as [|n IH]; intros l Hl.
    - destruct l; [done|cbn in Hl; lia].
    - destruct l as [|a [|b [|c r]]]; [done..|].
      apply H3, IH. cbn in Hl. lia. }
  intros l. by apply (H (length l)).
Qed.

Ltac each :=
  repeat first [apply List.Forall_nil
               | apply List.Forall_cons; [first [assumption | reflexivity]|]].

Lemma encodeBytes_decodable bs : Forall isByte bs -> decodable bs (encodeBytes bs).
Proof.
  induction bs as [|a|a b|a b c r IH] using three_ind; intros Hb.
  - split; [constructor|]. split; [done|]. split; [done|]. exists []. by repeat split.
  - inversion Hb as [|? ? Ha _]; subst. unfold isByte in Ha.
    assert (isSextet (a * 16 / 64)) as H1 by (unfold isSextet; Z.div_mod_to_equations; lia).
    assert (isSextet (a * 16 mod 64)) as H2 by (unfold isSextet; Z.div_mod_to_equations; lia).
    destruct (alphabetChar_spec _ H1) as (_ & W1 & E1), (alphabetChar_spec _ H2) as (_ & W2 & E2).
    unfold decodable. cbn [encodeBytes].
    split; [each|]. split; [done|]. split; [done|].
    exists [a * 16 / 64; a * 16 mod 64]. cbn [encodeBytes rev List.app].
    change (Web.stripPadding ["="%char; "="%char; alphabetChar (a * 16 mod 64); alphabetChar (a * 16 / 64)])
      with [alphabetChar (a * 16 mod 64); alphabetChar (a * 16 / 64)].
    split; [done|]. split; [each|]. split; [done|].
    cbn [Web.decodeSextets]. f_equal. Z.div_mod_to_equations; lia.
  - inversion Hb as [|? ? Ha Hb']; subst. inversion Hb' as [|? ? Hb0 _]; subst.
    unfold isByte in Ha, Hb0. set (n := (a * 256 + b) * 4).
    assert (isSextet (n / 4096)) as H1 by (unfold isSextet, n; Z.div_mod_to_equations; lia).
    assert (isSextet ((n / 64) mod 64)) as H2 by (unfold isSextet, n; Z.div_mod_to_equations; lia).
    assert (isSextet (n mod 64)) as H3 by (unfold isSextet, n; Z.div_mod_to_equations; lia).
    destruct (alphabetChar_spec _ H1) as (_ & W1 & E1), (alphabetChar_spec _ H2) as (_ & W2 & E2),
      (alphabetChar_spec _ H3) as (_ & W3 & E3).
    unfold decodable. cbn [encodeBytes].
    split; [each|]. split; [done|]. split; [done|].
    exists [n / 4096; (n / 64) mod 64; n mod 64]. cbn [encodeBytes rev List.app]. fold n.
    rewrite stripPadding_one by done.
    split; [done|]. split; [each|]. split; [done|].
    cbn [Web.decodeSextets]. unfold n. f_equal; [|f_equal]; Z.div_mod_to_equations; lia.
  - inversion Hb as [|? ? Ha Hb1]; subst. inversion Hb1 as [|? ? Hb0 Hb2]; subst.
    inversion Hb2 as [|? ? Hc Hr]; subst. unfold isByte in Ha, Hb0, Hc.
    destruct (IH Hr) as (Hw & Hlen & Hnil & vs & Hstrip & Hvs & Hmod & Hdec).
    set (n := a * 65536 + b * 256 + c).
    assert (isSextet (n / 262144)) as H1 by (unfold isSextet, n; Z.div_mod_to_equations; lia).
    assert (isSextet ((n / 4096) mod 64)) as H2 by (unfold isSextet, n; Z.div_mod_to_equations; lia).
    assert (isSextet ((n / 64) mod 64)) as H3 by (unfold isSextet, n; Z.div_mod_to_equations; lia).
    assert (isSextet (n mod 64)) as H4 by (unfold isSextet, n; Z.div_mod_to_equations; lia).
    destruct (alphabetChar_spec _ H1) as (_ & W1 & E1), (alphabetChar_spec _ H2) as (_ & W2 & E2),
      (alphabetChar_spec _ H3) as (_ & W3 & E3), (alphabetChar_spec _ H4) as (_ & W4 & E4).
    unfold decodable. cbn [encodeBytes]. fold n.
    split; [each; assumption|].
    split. { change (((4 + length (encodeBytes r)) mod 4)%nat = 0%nat).
             rewrite <- Nat.Div0.add_mod_idemp_r, Hlen. done. }
    split; [done|].
    exists (n / 262144 :: (n / 4096) mod 64 :: (n / 64) mod 64 :: n mod 64 :: vs).
    split; [|split; [each; assumption|split]].
    + set (c1 := alphabetChar (n / 262144)) in *.
      set (c2 := alphabetChar ((n / 4096) mod 64)) in *.
      set (c3 := alphabetChar ((n / 64) mod 64)) in *.
      set (c4 := alphabetChar (n mod 64)) in *.
      change (rev (Web.stripPadding (rev ([c1; c2; c3; c4] ++ encodeBytes r)))
              = ([c1; c2; c3; c4] ++ (alphabetChar <$> vs))%list).
      rewrite rev_app_distr.
      destruct (encodeBytes r) as [|x e] eqn:Ee.
      * cbn [rev List.app]. rewrite stripPadding_other by done.
        cbn in Hstrip. destruct vs; [done|discriminate].
      * assert (2 <= length (rev (x :: e)))%nat as Hl2.
        { rewrite length_rev. destruct e as [|y e]; [cbn in Hlen; done|cbn; lia]. }
        rewrite stripPadding_app by done.
        rewrite rev_app_distr, Hstrip. done.
    + intros H. apply Hmod.
      change (((4 + length vs) mod 4)%nat = 1%nat) in H.
      rewrite <- Nat.Div0.add_mod_idemp_l in H. exact H.
    + cbn [Web.decodeSextets]. rewrite Hdec. unfold n.
      f_equal; [|f_equal; [|f_equal]]; Z.div_mod_to_equations; lia.
Qed.

Lemma filter_keep {A} (P : A -> Prop) `{forall x, Decision (P x)} (l : list A) :
  Forall P l -> filter P l = l.
Proof.
  induction 1 as [|x l Hx _ IH]; [done|].
  rewrite filter_cons_True by done. by rewrite IH.
Qed.

Lemma sextets_alphabet vs : Forall isSextet vs -> Web.sextets (alphabetChar <$> vs) = Some vs.
Proof.
  induction 1 as [|v vs Hv _ IH]; [done|].
  cbn [fmap list_fmap Web.sextets]. 
  change (Web.sextets (list_fmap Z ascii alphabetChar vs)) with (Web.sextets (alphabetChar <$> vs)).
  destruct (alphabetChar_spec v Hv) as (-> & _). by rewrite IH.
Qed.

Lemma base64_decode (bs : list Z) :
  Forall isByte bs -> Web.forgivingBase64Decode (base64 bs) = Some bs.
Proof.
  intros Hb. destruct (encodeBytes_decodable bs Hb) as (Hw & Hlen & _ & vs & Hstrip & Hvs & Hmod & Hdec).
  unfold Web.forgivingBase64Decode, base64.
  rewrite list_ascii_of_string_of_list_ascii, filter_keep by done.
  rewrite Hlen. cbn [Nat.eqb]. rewrite Hstrip, length_fmap.
  destruct (Nat.eqb_spec (length vs mod 4) 1) as [?|_]; [done|].
  rewrite sextets_alphabet by done. cbn. by rewrite Hdec.
Qed.

Example base64_ABC : base64 [65; 66; 67; 68] = "QUJDRA==".
Proof. reflexivity. Qed.



(** ** The file made of a fetched door *)

Lemma split_sep_free sep s : Forall (fun x => ~ In sep (list_ascii_of_string x)) (Str.split sep s).
Proof.
  induction s as [|c s IH]; cbn [Str.split].
  - constructor; [by intros []|constructor].
  - destruct (Ascii.eqb_spec c sep) as [->|Hc].
    + constructor; [by intros []|done].
    + destruct (Str.split sep s) as [|h t];
        [constructor; [by intros [?|[]]|constructor]|].
      inversion IH as [|? ? Hh Ht]; subst. constructor; [|done].
      by intros [?|?].
Qed.

Lemma split_nonempty sep s : Str.split sep s <> [].
Proof.
  destruct s as [|c s]; cbn [Str.split]; [done|].
  destruct (Ascii.eqb c sep); [done|]. by destruct (Str.split sep s).
Qed.

Lemma last_split_app sep s p :
  (2 <= length (Str.split sep (s ++ String sep p)))%nat /\
  last (Str.split sep (s ++ String sep p)) = last (Str.split sep p).
Proof.
  induction s as [|c s [IHl IH]].
  - change (Str.split sep ("" ++ String sep p)) with (Str.split sep (String sep p)).
    cbn [Str.split]. rewrite Ascii.eqb_refl.
    pose proof (split_nonempty sep p). destruct (Str.split sep p); [done|].
    split; [cbn; lia|done].
  - change (Str.split sep (String c s ++ String sep p))
      with (Str.split sep (String c (s ++ String sep p))).
    cbn [Str.split]. destruct (Ascii.eqb c sep).
    + destruct (Str.split sep (s ++ String sep p)) as [|h [|h' t]]; [cbn in IHl; lia..|].
      split; [cbn; lia|]. by rewrite <- IH.
    + destruct (Str.split sep (s ++ String sep p)) as [|h [|h' t]]; [cbn in IHl; lia..|].
      split; [cbn; lia|]. by rewrite <- IH.
Qed.



(** ** A door image in use *)

Lemma rerender_keeps_door (u : string) (s : option string) (p : Effects.Page) :
  Effects.doorDep p = Some u -> Effects.sceneDep p <> Some u ->
  ~ In u (Effects.revoked p) ->
  ~ In u (Effects.revoked (Effects.rerender s (Some u) p)).
Proof.
  intros Hd Hs Hr. unfold Effects.rerender. cbn [Effects.revoked].
  destruct (decide (Some u = Effects.doorDep p)) as [_|Hne]; [|by rewrite Hd in Hne].
  destruct (decide (s = Effects.sceneDep p)); [done|].
  destruct (sceneCleanup_app (Effects.sceneDep p) (Effects.revoked p)) as (l & -> & _ & Hin).
  intros [H|H]%in_app_or; [done|]. apply Hin in H. done.
Qed.

(** X21: as long as the same door stays selected, however often the
    component renders and whatever scene URLs come and go, the door's URL
    is not given to [URL.revokeObjectURL], so the image on the card keeps
    loading. *)
Theorem door_url_kept (u : string) (s0 : option string)
    (rs : list (option string * option string)) :
  s0 <> Some u ->
  Forall (fun r => r.1 <> Some u /\ r.2 = Some u) rs ->
  ~ In u (Effects.revoked (Effects.renders rs (Effects.mount s0 (Some u)))).
Proof.
  intros Hs0 Hrs.
  assert (forall p, Effects.doorDep p = Some u -> Effects.sceneDep p <> Some u ->
                    ~ In u (Effects.revoked p) ->
                    ~ In u (Effects.revoked (Effects.renders rs p))) as H.
  { induction Hrs as [|[s d] rs [Hs Hd] _ IH]; intros p Hp1 Hp2 Hp3; [done|].
    cbn in Hs, Hd. subst d. cbn [Effects.renders foldl]. apply IH.
    - reflexivity.
    - exact Hs.
    - by apply rerender_keeps_door. }
  apply H; [reflexivity|exact Hs0|by intros []].
Qed.

Lemma door_url_kept_witness :
  ~ In "blob:http://localhost/door-1"
      (Effects.revoked
         (Effects.renders
            [(Some "blob:http://localhost/scene-2", Some "blob:http://localhost/door-1");
             (None, Some "blob:http://localhost/door-1")]
            Scenario.page)).
Proof.
  apply (door_url_kept "blob:http://localhost/door-1"
           (Some "blob:http://localhost/scene-1")).
  - discriminate.
  - repeat constructor; discriminate.
Defined.
